(** * parse_lib: the DICOM standard HTML helpers, embedded in Rocq

    A shallow embedding of [parse_lib.py]: the URL resolver, the HTML
    sanitizer and cleaner, and the table-name and section cleaners, with the
    properties their specification states.

    Conventions of the embedding.
    - A Python [str] is a list of Unicode code points ([str]); [u "..."]
      writes an ASCII literal.
    - A raised exception is the [Raise] case of [result]; [x <- e ;; k] is
      sequencing, which stops at the first exception as Python does.
    - A BeautifulSoup tree is a [node]: a [Tag] with its name, its attribute
      dictionary in insertion order and its contents, or a
      [NavigableString].  Comments and the other special strings of
      BeautifulSoup are left out.
    - BeautifulSoup's parser and printer are not part of [parse_lib.py].  An
      HTML text is identified with the list of top-level nodes it parses to,
      so [clean_html] takes and returns such a list, [BeautifulSoup(text)]
      is the list itself, and [str(tree)] is the list that the text of the
      tree parses to.  [printed] computes it: the attributes of every tag
      come in sorted order, strings that are next to each other are joined,
      and a string of ASCII whitespace is reduced to one character.
    - Code that changes the attributes of tags in place returns the changed
      tree, and a function that only reads and writes the attributes of one
      tag ([update_anchor_href], [resolve_resource]) works on the
      dictionary.  The loop of [remove_empty_children], which decomposes
      tags that the list it runs over still holds, is modelled on a tree
      with marks. *)

From Stdlib Require Import String Ascii List NArith Bool Arith Lia Sorted.
Import ListNotations.

Set Implicit Arguments.

(** ** Python strings *)

Module Py.

Definition char := N.
Definition str := list char.

(** The code points of an ASCII literal. *)
Definition u (s : string) : str :=
  map (fun c => N.of_nat (nat_of_ascii c)) (list_ascii_of_string s).

Fixpoint str_eqb (a b : str) : bool :=
  match a, b with
  | [], [] => true
  | x :: a', y :: b' => N.eqb x y && str_eqb a' b'
  | _, _ => false
  end.

(** [s.startswith(p)] *)
Fixpoint starts_with (p s : str) : bool :=
  match p, s with
  | [], _ => true
  | x :: p', y :: s' => N.eqb x y && starts_with p' s'
  | _ :: _, [] => false
  end.

(** [p in s] *)
Fixpoint contains (p s : str) : bool :=
  starts_with p s ||
  match s with
  | [] => false
  | _ :: s' => contains p s'
  end.

(** [s.split(sep)] for a non-empty separator: the pieces between the
    occurrences of [sep], found left to right without overlap.  [skip]
    counts the characters of a separator still to pass over, [cur] is the
    piece being read, reversed. *)
Fixpoint split_go (sep : str) (skip : nat) (cur s : str) {struct s} : list str :=
  match s with
  | [] => [rev cur]
  | c :: s' =>
      match skip with
      | S k => split_go sep k cur s'
      | O =>
          if starts_with sep s
          then rev cur :: split_go sep (length sep - 1) [] s'
          else split_go sep 0 (c :: cur) s'
      end
  end.

Definition split (sep s : str) : list str := split_go sep 0 [] s.

(** [sep.join(parts)] *)
Fixpoint join (sep : str) (parts : list str) : str :=
  match parts with
  | [] => []
  | [p] => p
  | p :: rest => p ++ sep ++ join sep rest
  end.

(** [s.replace(old, new)] for a non-empty [old]. *)
Fixpoint replace_go (old new : str) (skip : nat) (s : str) {struct s} : str :=
  match s with
  | [] => []
  | c :: s' =>
      match skip with
      | S k => replace_go old new k s'
      | O =>
          if starts_with old s
          then new ++ replace_go old new (length old - 1) s'
          else c :: replace_go old new 0 s'
      end
  end.

Definition replace (old new s : str) : str := replace_go old new 0 s.

(** [str.isspace] on one code point: the characters [str.strip()] removes. *)
Definition is_space (c : char) : bool :=
  (((9 <=? c) && (c <=? 13)) || ((28 <=? c) && (c <=? 32))
   || (c =? 133) || (c =? 160) || (c =? 5760)
   || ((8192 <=? c) && (c <=? 8202))
   || (c =? 8232) || (c =? 8233) || (c =? 8239) || (c =? 8287)
   || (c =? 12288))%N.

Fixpoint lstrip (s : str) : str :=
  match s with
  | [] => []
  | c :: s' => if is_space c then lstrip s' else s
  end.

Definition rstrip (s : str) : str := rev (lstrip (rev s)).

(** [s.strip()] *)
Definition strip (s : str) : str := rstrip (lstrip s).

(** [a <= b]: the order of the code points, a prefix first. *)
Fixpoint str_leb (a b : str) : bool :=
  match a, b with
  | [], _ => true
  | _ :: _, [] => false
  | x :: a', y :: b' => if (x =? y)%N then str_leb a' b' else (x <? y)%N
  end.

(** [l.index(x)], [None] standing for its [ValueError]. *)
Fixpoint index (x : str) (l : list str) : option nat :=
  match l with
  | [] => None
  | y :: l' => if str_eqb y x then Some 0 else option_map S (index x l')
  end.

(** The part of [s] before its first line feed: what [.*] can match from
    the start of [s]. *)
Fixpoint first_line (s : str) : str :=
  match s with
  | [] => []
  | c :: s' => if N.eqb c 10 then [] else c :: first_line s'
  end.

End Py.
Import Py.

(** ** Exceptions *)

Inductive exn := ValueError | AttributeError | KeyError | StopIteration.

Inductive result (A : Type) : Type :=
| Ok (a : A)
| Raise (e : exn).
Arguments Ok {A} a.
Arguments Raise {A} e.

Definition bind {A B} (r : result A) (k : A -> result B) : result B :=
  match r with
  | Ok a => k a
  | Raise e => Raise e
  end.

Notation "x <- e ;; k" := (bind e (fun x => k))
  (at level 61, e at next level, right associativity).
Notation "' p <- e ;; k" := (bind e (fun x => let p := x in k))
  (at level 61, p pattern, e at next level, right associativity).

(** [a, b = parts] *)
Definition unpack2 {A} (parts : list A) : result (A * A) :=
  match parts with
  | [a; b] => Ok (a, b)
  | _ => Raise ValueError
  end.

(** [a, b, c = parts] *)
Definition unpack3 {A} (parts : list A) : result (A * A * A) :=
  match parts with
  | [a; b; c] => Ok (a, b, c)
  | _ => Raise ValueError
  end.

(** ** URL resolver *)

Definition BASE_DICOM_URL : str :=
  u "http://dicom.nema.org/medical/dicom/current/output/html/".
Definition BASE_SHORT_DICOM_SECTION_URL : str :=
  u "http://dicom.nema.org/medical/dicom/current/output/chtml/".
Definition SHORT_DICOM_URL_PREFIX : str :=
  u "http://dicom.nema.org/medical/dicom/current/output/chtml/part03/".

(** [re.match(r'(http)|(ftp)', s)]: a match anchored at the start of [s]. *)
Definition match_protocol (s : str) : bool :=
  starts_with (u "http") s || starts_with (u "ftp") s.

(** [re.match] of [href] against the pattern of [resolve_href_url]: any
    characters, then [sect_] (or [chapter]), then any characters.  The
    match is anchored at the start and [.] matches anything but a line
    feed, so the word has to lie on the first line. *)
Definition match_sect_or_chapter (href : str) : bool :=
  contains (u "sect_") (first_line href) || contains (u "chapter") (first_line href).

Definition get_standard_page (sect_id : str) : str :=
  let sections := split (u ".") sect_id in
  match index (u "1") sections with
  | Some cutoff_index =>
      let cropped_section := firstn cutoff_index sections in
      let section_page := join (u ".") (firstn cutoff_index sections) in
      if Nat.eqb (length cropped_section) 1
      then replace (u "sect_") (u "chapter_") section_page
      else section_page
  | None => sect_id
  end.

Definition get_short_html_location (reference_link : str) : result str :=
  '(standard_page, section_id) <- unpack2 (split (u "#") reference_link) ;;
  let chapter_with_extension :=
    if str_eqb standard_page [] then u "part03.html" else standard_page in
  '(chapter, _) <- unpack2 (split (u ".html") chapter_with_extension) ;;
  Ok (chapter ++ u "/" ++ get_standard_page section_id ++ u ".html#" ++ section_id).

Definition get_long_html_location (reference_link : str) : result str :=
  '(standard_page, section_id) <- unpack2 (split (u "#") reference_link) ;;
  let chapter_with_extension :=
    if str_eqb standard_page [] then u "part03.html" else standard_page in
  Ok (chapter_with_extension ++ u "#" ++ section_id).

Definition resolve_href_url (href : str) : result str :=
  if match_sect_or_chapter href
  then loc <- get_short_html_location href ;; Ok (BASE_SHORT_DICOM_SECTION_URL ++ loc)
  else loc <- get_long_html_location href ;; Ok (BASE_DICOM_URL ++ loc).

(** ** Table name and section cleaner *)

Definition nbsp : char := 160%N.

Definition possible_table_suffixes : list str :=
  [u "IOD Modules"; u "Module Attributes"; u "Macro Attributes"; u "Module Table"].

(** The first alternative that matches at the head of [s], with its
    position among the alternatives. *)
Fixpoint first_alt (alts : list str) (s : str) : option (nat * str) :=
  match alts with
  | [] => None
  | a :: alts' =>
      if starts_with a s then Some (0, a)
      else option_map (fun im => (S (fst im), snd im)) (first_alt alts' s)
  end.

(** What the [n] capture groups hold when alternative [i] matched [m]:
    [None] for the groups that took no part. *)
Definition groups (n i : nat) (m : str) : list (option str) :=
  map (fun j => if Nat.eqb j i then Some m else None) (seq 0 n).

(** [re.split] on an alternation of parenthesised literals: the pieces
    between the matches, each match followed by its capture groups. *)
Fixpoint re_split_go (alts : list str) (skip : nat) (cur s : str) {struct s}
  : list (option str) :=
  match s with
  | [] => [Some (rev cur)]
  | c :: s' =>
      match skip with
      | S k => re_split_go alts k cur s'
      | O =>
          match first_alt alts s with
          | Some (i, m) =>
              Some (rev cur) :: groups (length alts) i m
                ++ re_split_go alts (length m - 1) [] s'
          | None => re_split_go alts 0 (c :: cur) s'
          end
      end
  end.

Definition re_split (alts : list str) (s : str) : list (option str) :=
  re_split_go alts 0 [] s.

Definition clean_table_name (name : str) : result str :=
  '(_, _, title) <- unpack3 (split [nbsp] name) ;;
  match re_split possible_table_suffixes title with
  | Some clean_title :: _ => Ok (strip clean_title)
  | None :: _ => Raise AttributeError
  | [] => Raise ValueError
  end.

(** ** Parse trees *)

(** A tag's [attrs]: keys with their values, in insertion order.  The
    values are strings; the value of [class], which BeautifulSoup keeps as
    the list of its words, is split into words where the code tests it
    ([has_class]). *)
Definition dict := list (str * str).

Fixpoint get (k : str) (d : dict) : option str :=
  match d with
  | [] => None
  | (k', v) :: d' => if str_eqb k' k then Some v else get k d'
  end.

Definition has_key (k : str) (d : dict) : bool :=
  match get k d with Some _ => true | None => false end.

(** [d[k]] *)
Definition getitem (d : dict) (k : str) : result str :=
  match get k d with Some v => Ok v | None => Raise KeyError end.

(** [d[k] = v]: the key keeps its place, a new key goes last. *)
Fixpoint setitem (k v : str) (d : dict) : dict :=
  match d with
  | [] => [(k, v)]
  | (k', v') :: d' => if str_eqb k' k then (k, v) :: d' else (k', v') :: setitem k v d'
  end.

Unset Elimination Schemes.
Inductive node :=
| Tag (name : str) (attrs : dict) (contents : list node)
| NavigableString (s : str).
Set Elimination Schemes.

(** [tag.descendants]: every node below [t], in document order. *)
Fixpoint descendants (t : node) : list node :=
  match t with
  | Tag _ _ contents => flat_map (fun c => c :: descendants c) contents
  | NavigableString _ => []
  end.

(** [tag.text]: the strings below [t], concatenated. *)
Fixpoint text (t : node) : str :=
  match t with
  | Tag _ _ contents => flat_map text contents
  | NavigableString s => s
  end.

Definition is_tag (name : str) (t : node) : bool :=
  match t with
  | Tag n _ _ => str_eqb n name
  | NavigableString _ => false
  end.

(** [isinstance(t, NavigableString)] *)
Definition is_string (t : node) : bool :=
  match t with
  | Tag _ _ _ => false
  | NavigableString _ => true
  end.

(** [tag.find(name)] *)
Definition find (name : str) (t : node) : option node :=
  List.find (is_tag name) (descendants t).

(** Attribute access on what may be [None]. *)
Definition not_none {A} (o : option A) : result A :=
  match o with Some a => Ok a | None => Raise AttributeError end.

(** [f] on each element from left to right, up to the first exception. *)
Section MapM.
Context {A B : Type} (f : A -> result B).

Fixpoint mapM (l : list A) : result (list B) :=
  match l with
  | [] => Ok []
  | a :: l' => b <- f a ;; bs <- mapM l' ;; Ok (b :: bs)
  end.
End MapM.

(** ** HTML sanitizer *)

Definition allowed_attributes : list str :=
  [u "href"; u "src"; u "type"; u "data"; u "colspan"; u "rowspan"].

Definition is_allowed (k : str) : bool := existsb (str_eqb k) allowed_attributes.

Definition clean_tag_attributes (tag : node) : node :=
  match tag with
  | Tag name attrs contents =>
      Tag name (filter (fun kv => is_allowed (fst kv)) attrs) contents
  | NavigableString _ => tag
  end.

(** [clean_tag_attributes] on [t] and on every node below it. *)
Fixpoint clean_all (t : node) : node :=
  match t with
  | Tag name attrs contents => clean_tag_attributes (Tag name attrs (map clean_all contents))
  | NavigableString _ => clean_tag_attributes t
  end.

(** A [NavigableString] has no [descendants]. *)
Definition remove_attributes_from_html_tags (top_level_tag : node) : result node :=
  match top_level_tag with
  | Tag _ _ _ => Ok (clean_all top_level_tag)
  | NavigableString _ => Raise AttributeError
  end.

(** The test of [remove_empty_children]: an [a] tag whose text is empty. *)
Definition is_empty_anchor (t : node) : bool :=
  is_tag (u "a") t && str_eqb (text t) [].

(** *** Trees that are changed in place

    [decompose] takes a tag out of the tree and empties it and every node
    in it, while the list that [find_all] returned still holds them.  The
    tree the loop of [remove_empty_children] works on is therefore a tree
    whose tags carry a mark, set when the tag is decomposed, and a tag is
    named by its path from the top-level tag, which no removal shifts. *)

Unset Elimination Schemes.
Inductive marked :=
| MTag (decomposed : bool) (name : str) (attrs : dict) (contents : list marked)
| MString (s : str).
Set Elimination Schemes.

Fixpoint mark (t : node) : marked :=
  match t with
  | Tag name attrs contents => MTag false name attrs (map mark contents)
  | NavigableString s => MString s
  end.

Definition is_decomposed (m : marked) : bool :=
  match m with
  | MTag decomposed _ _ _ => decomposed
  | MString _ => false
  end.

(** The tree that is left: a decomposed tag is gone with all it held. *)
Fixpoint unmark (m : marked) : node :=
  match m with
  | MTag _ name attrs contents =>
      Tag name attrs (flat_map (fun c => if is_decomposed c then [] else [unmark c]) contents)
  | MString s => NavigableString s
  end.

(** The text of a tag: nothing once it is decomposed, and else the text of
    what it still holds. *)
Fixpoint marked_text (m : marked) : str :=
  match m with
  | MTag true _ _ _ => []
  | MTag false _ _ contents => flat_map marked_text contents
  | MString s => s
  end.

(** [f] on the element at position [i], if there is one. *)
Section UpdateNth.
Context {A : Type} (f : A -> A).

Fixpoint update_nth (i : nat) (l : list A) : list A :=
  match l, i with
  | [], _ => []
  | x :: l', O => f x :: l'
  | x :: l', S j => x :: update_nth j l'
  end.
End UpdateNth.

(** [.text] of the node at path [p]: nothing if the node, or a tag it was
    in, is decomposed. *)
Fixpoint text_at (m : marked) (p : list nat) : str :=
  match m with
  | MTag true _ _ _ => []
  | MTag false _ _ contents =>
      match p with
      | [] => flat_map marked_text contents
      | i :: p' =>
          match nth_error contents i with
          | Some c => text_at c p'
          | None => []
          end
      end
  | MString s => s
  end.

(** [.decompose()] on the node at path [p]. *)
Fixpoint decompose_at (m : marked) (p : list nat) : marked :=
  match m with
  | MTag decomposed name attrs contents =>
      match p with
      | [] => MTag true name attrs contents
      | i :: p' =>
          MTag decomposed name attrs (update_nth (fun c => decompose_at c p') i contents)
      end
  | MString _ => m
  end.

(** [t.find_all(name)]: the paths of the [name] tags below [t], in
    document order. *)
Section FindAll.
Variable name : str.

Fixpoint find_all (t : node) : list (list nat) :=
  match t with
  | Tag _ _ contents =>
      (fix below (i : nat) (l : list node) : list (list nat) :=
         match l with
         | [] => []
         | c :: l' =>
             (if is_tag name c then [[i]] else [])
               ++ map (cons i) (find_all c) ++ below (S i) l'
         end) 0 contents
  | NavigableString _ => []
  end.
End FindAll.

(** One turn of the loop: the filter of [remove_empty_children] reads the
    text of an anchor when the loop comes to it, and the loop decomposes
    the anchor if the text is empty. *)
Definition decompose_if_empty (m : marked) (anchor : list nat) : marked :=
  if str_eqb (text_at m anchor) [] then decompose_at m anchor else m.

(** [find_all] searches below the top-level tag, and a [NavigableString]
    has no [find_all]. *)
Definition remove_empty_children (top_level_tag : node) : result node :=
  match top_level_tag with
  | Tag _ _ _ =>
      let anchors := find_all (u "a") top_level_tag in
      Ok (unmark (fold_left decompose_if_empty anchors (mark top_level_tag)))
  | NavigableString _ => Raise AttributeError
  end.

(** ** Printing a tree and parsing the text

    What BeautifulSoup's printer and its [html.parser] tree builder make
    of a tree that is printed and parsed again.  The printer writes the
    attributes of a tag in the order of [sorted(attrs.items())].  The
    parser collects the text between two tags into one string, so it joins
    strings that are next to each other and makes no empty string; and
    where the text is ASCII whitespace only it keeps one newline, if there
    is a newline in it, or else one space, except inside a [pre] or a
    [textarea].  Tag names, attribute values, the nesting of the tags and
    every other string come back as they were printed. *)

(** A dictionary holds a key once, so the order of the items is the order
    of their keys. *)
Fixpoint insert_item (kv : str * str) (d : dict) : dict :=
  match d with
  | [] => [kv]
  | kv' :: d' =>
      if str_leb (fst kv) (fst kv') then kv :: d else kv' :: insert_item kv d'
  end.

(** [sorted(d.items())] *)
Definition sorted_items (d : dict) : dict := fold_right insert_item [] d.

(** The parser's [ASCII_SPACES]: space, line feed, tab, form feed and
    carriage return. *)
Definition is_ascii_space (c : char) : bool :=
  ((c =? 32) || (c =? 10) || (c =? 9) || (c =? 12) || (c =? 13))%N.

Definition preserve_whitespace_tags : list str := [u "pre"; u "textarea"].

Definition preserves_whitespace (name : str) : bool :=
  existsb (str_eqb name) preserve_whitespace_tags.

(** The string the parser makes of the text [data] it has collected when
    it comes to a tag: none of no text.  [preserve] says that a [pre] or a
    [textarea] is open. *)
Definition end_data (preserve : bool) (data : str) : list node :=
  match data with
  | [] => []
  | _ :: _ =>
      if negb preserve && forallb is_ascii_space data
      then [NavigableString (if existsb (N.eqb 10) data then [10%N] else [32%N])]
      else [NavigableString data]
  end.

(** The nodes the parser makes of the text of the nodes [l], [data] being
    the text collected before them. *)
Fixpoint parse_contents (preserve : bool) (data : str) (l : list node) : list node :=
  match l with
  | [] => end_data preserve data
  | NavigableString s :: l' => parse_contents preserve (data ++ s) l'
  | Tag name attrs contents :: l' =>
      end_data preserve data ++ Tag name attrs contents :: parse_contents preserve [] l'
  end.

(** The tag that the printed tag [t] parses to; the strings among the
    contents of a tag are left to [parse_contents]. *)
Fixpoint reparse (preserve : bool) (t : node) : node :=
  match t with
  | Tag name attrs contents =>
      let preserve' := preserve || preserves_whitespace name in
      Tag name (sorted_items attrs)
        (parse_contents preserve' [] (map (reparse preserve') contents))
  | NavigableString _ => t
  end.

(** The nodes that the printed nodes [html] parse to. *)
Definition printed (html : list node) : list node :=
  parse_contents false [] (map (reparse false) html).

(** The same for a tree that was parsed from a text and had only
    attributes changed since: its strings are as the parser makes them, so
    only the order of the attributes is new ([printed_map_attrs]). *)
Fixpoint sorted_attributes (t : node) : node :=
  match t with
  | Tag name attrs contents =>
      Tag name (sorted_items attrs) (map sorted_attributes contents)
  | NavigableString _ => t
  end.

(** ** URL resolution over a document *)

Definition has_protocol_prefix (resource : dict) (url_attribute : str) : result bool :=
  v <- getitem resource url_attribute ;; Ok (match_protocol v).

Definition update_anchor_href (anchor : dict) : result dict :=
  p <- has_protocol_prefix anchor (u "href") ;;
  if negb p then
    href <- getitem anchor (u "href") ;;
    href' <- resolve_href_url href ;;
    Ok (setitem (u "target") (u "_blank") (setitem (u "href") href' anchor))
  else Ok anchor.

Definition resolve_resource (url_attribute : str) (resource : dict) : result dict :=
  p <- has_protocol_prefix resource url_attribute ;;
  if negb p then
    v <- getitem resource url_attribute ;;
    Ok (setitem url_attribute (BASE_DICOM_URL ++ v) resource)
  else Ok resource.

(** [list(map(f, html.find_all(name, attr=True)))]: [f] on the attributes
    of every [name] tag that has the attribute [attr], in document order,
    up to the first exception. *)
Fixpoint update_all (name attr : str) (f : dict -> result dict) (t : node) : result node :=
  match t with
  | Tag n attrs contents =>
      attrs' <- (if str_eqb n name && has_key attr attrs then f attrs else Ok attrs) ;;
      contents' <- mapM (update_all name attr f) contents ;;
      Ok (Tag n attrs' contents')
  | NavigableString _ => Ok t
  end.

(** [html] is the document that [html_string] parses to.  The anchors,
    then the images, then the objects: the code lists the three kinds of
    tags before it updates any; a pass changes no tag name and only the
    attributes of the tags it selects, so listing them pass by pass finds
    the same tags.  [str(html)], the text of the document, is given as
    what it parses to. *)
Definition resolve_relative_resource_urls (html : list node) : result (list node) :=
  html1 <- mapM (update_all (u "a") (u "href") update_anchor_href) html ;;
  html2 <- mapM (update_all (u "img") (u "src") (resolve_resource (u "src"))) html1 ;;
  html3 <- mapM (update_all (u "object") (u "data") (resolve_resource (u "data"))) html2 ;;
  Ok (map sorted_attributes html3).

(** ** HTML cleaner *)

(** [next(parsed_html.descendants)] *)
Definition get_top_level_tag (parsed_html : list node) : result node :=
  match parsed_html with
  | t :: _ => Ok t
  | [] => Raise StopIteration
  end.

(** [html] is the parsed fragment, and [printed [t2]] is what
    [str(top_level_tag)], the text of the sanitized tag, parses to. *)
Definition clean_html (html : list node) : result (list node) :=
  top_level_tag <- get_top_level_tag html ;;
  t1 <- remove_attributes_from_html_tags top_level_tag ;;
  t2 <- remove_empty_children t1 ;;
  resolve_relative_resource_urls (printed [t2]).

(** The sanitizer of [clean_html]: the attribute pass, then the removal
    of empty anchors. *)
Definition sanitize (top_level_tag : node) : result node :=
  t1 <- remove_attributes_from_html_tags top_level_tag ;;
  remove_empty_children t1.

(** ** Parent section of a table *)

(** A tag together with its place in a document, which [.parent] needs:
    [document] is the tree it belongs to and [path] the child positions
    that lead to it from the root. *)
Record element := { document : node; path : list nat }.

Fixpoint node_at (t : node) (p : list nat) : option node :=
  match p with
  | [] => Some t
  | i :: p' =>
      match t with
      | Tag _ _ contents =>
          match nth_error contents i with
          | Some c => node_at c p'
          | None => None
          end
      | NavigableString _ => None
      end
  end.

(** [e.parent]: [None] at the root. *)
Definition parent (e : element) : option node :=
  match path e with
  | [] => None
  | _ :: _ => node_at (document e) (removelast (path e))
  end.

(** [tag.get(k)] *)
Definition get_attr (k : str) (t : node) : option str :=
  match t with
  | Tag _ attrs _ => get k attrs
  | NavigableString _ => None
  end.

Definition table_parent_page (table_div : element) : result str :=
  p <- not_none (parent table_div) ;;
  d1 <- not_none (find (u "div") p) ;;
  d2 <- not_none (find (u "div") d1) ;;
  d3 <- not_none (find (u "div") d2) ;;
  anchor <- not_none (find (u "a") d3) ;;
  parent_section_id <- not_none (get_attr (u "id") anchor) ;;
  let sections := split (u ".") parent_section_id in
  match index (u "1") sections with
  | Some cutoff_index => Ok (join (u ".") (firstn cutoff_index sections))
  | None => Ok parent_section_id
  end.

(** ** Text of a fragment *)

(** [parsed_html.text.strip()]: [html] is the parsed string. *)
Definition text_from_html_string (html : list node) : str :=
  strip (flat_map text html).

(** ** Slug generator *)

(** [re.sub] of a pattern that is one or more characters of a class:
    [repl] for every maximal run of such characters.  [in_run] says that
    the character before belonged to the class. *)
Fixpoint sub_runs (cls : char -> bool) (repl : str) (in_run : bool) (s : str) : str :=
  match s with
  | [] => []
  | c :: s' =>
      if cls c
      then (if in_run then [] else repl) ++ sub_runs cls repl true s'
      else c :: sub_runs cls repl false s'
  end.

(** The class of whitespace and [/]. *)
Definition is_space_or_slash (c : char) : bool := is_space c || (c =? 47)%N.

(** The class of the parentheses, the comma and the apostrophe. *)
Definition is_slug_punctuation (c : char) : bool :=
  ((c =? 40) || (c =? 41) || (c =? 44) || (c =? 39))%N.

(** [title.lower()] is Python's lowering of Unicode text, which is taken
    as it is: [lower] stands for it. *)
Section Slug.
Variable lower : str -> str.

Definition create_slug (title : str) : str :=
  let first_pass := sub_runs is_space_or_slash (u "-") false (lower title) in
  sub_runs is_slug_punctuation [] false first_pass.
End Slug.

(** ** Table locator *)

(** The words of an attribute value: what BeautifulSoup keeps of a [class]
    attribute.  [cur] is the word being read, reversed. *)
Fixpoint words_go (cur s : str) : list str :=
  match s with
  | [] => match cur with [] => [] | _ :: _ => [rev cur] end
  | c :: s' =>
      if is_space c
      then match cur with [] => [] | _ :: _ => [rev cur] end ++ words_go [] s'
      else words_go (c :: cur) s'
  end.

Definition words (s : str) : list str := words_go [] s.

(** The test of [find_all(..., class_=cls)]: one of the classes of the tag
    is [cls], or all of them in one string are. *)
Definition has_class (cls : str) (t : node) : bool :=
  match t with
  | Tag _ attrs _ =>
      match get (u "class") attrs with
      | Some v => existsb (str_eqb cls) (words v) || str_eqb (join (u " ") (words v)) cls
      | None => false
      end
  | NavigableString _ => false
  end.

Definition is_tag_of_class (name cls : str) (t : node) : bool :=
  is_tag name t && has_class cls t.

(** [t.find_all(...)] for a test on tags: the nodes below [t] that pass
    it, each with its path from [t], in document order. *)
Section FindAllBy.
Variable sel : node -> bool.

Fixpoint find_all_by (t : node) : list (list nat * node) :=
  match t with
  | Tag _ _ contents =>
      (fix below (i : nat) (l : list node) : list (list nat * node) :=
         match l with
         | [] => []
         | c :: l' =>
             (if sel c then [([i], c)] else [])
               ++ map (fun qn => (i :: fst qn, snd qn)) (find_all_by c)
               ++ below (S i) l'
         end) 0 contents
  | NavigableString _ => []
  end.
End FindAllBy.

(** [chapter.div.div.div.h1.a.get('id')] *)
Definition chapter_heading_id (chapter : node) : result (option str) :=
  d1 <- not_none (find (u "div") chapter) ;;
  d2 <- not_none (find (u "div") d1) ;;
  d3 <- not_none (find (u "div") d2) ;;
  h1 <- not_none (find (u "h1") d3) ;;
  anchor <- not_none (find (u "a") h1) ;;
  Ok (get_attr (u "id") anchor).

(** [== chapter_name] on what [get] returned. *)
Definition is_id (chapter_name : str) (id : option str) : bool :=
  match id with
  | Some i => str_eqb i chapter_name
  | None => false
  end.

(** The loop of [all_tdivs_in_chapter] over the chapters that are left;
    falling off its end returns [None]. *)
Fixpoint tdivs_of_first (standard : node) (chapter_name : str)
         (chapter_divs : list (list nat * node)) : result (option (list element)) :=
  match chapter_divs with
  | [] => Ok None
  | (p, chapter) :: rest =>
      id <- chapter_heading_id chapter ;;
      if is_id chapter_name id
      then
        let table_divs := find_all_by (is_tag_of_class (u "div") (u "table")) chapter in
        Ok (Some (map (fun qn => {| document := standard; path := p ++ fst qn |}) table_divs))
      else tdivs_of_first standard chapter_name rest
  end.

Definition all_tdivs_in_chapter (standard : node) (chapter_name : str)
  : result (option (list element)) :=
  let chapter_divs := find_all_by (is_tag_of_class (u "div") (u "chapter")) standard in
  tdivs_of_first standard chapter_name chapter_divs.

(** [pr.table_id] belongs to [parse_relations], which is not part of this
    file: [table_id] stands for it. *)
Section FindTdiv.
Variable table_id : element -> result str.

Definition find_tdiv_by_id (all_tables : list element) (id : str) : result (option element) :=
  with_id <- mapM (fun table => i <- table_id table ;; Ok (table, i)) all_tables ;;
  let table_with_id := map fst (filter (fun ti => str_eqb (snd ti) id) with_id) in
  Ok (match table_with_id with
      | [] => None
      | table :: _ => Some table
      end).
End FindTdiv.

(** ** Reading a tree *)

(** The tags of [t], itself included, in document order: each with its
    name and attributes. *)
Fixpoint tags (t : node) : list (str * dict) :=
  match t with
  | Tag name attrs contents => (name, attrs) :: flat_map tags contents
  | NavigableString _ => []
  end.

Definition doc_tags (html : list node) : list (str * dict) := flat_map tags html.

(** [g] on the attributes of every tag of [t]. *)
Fixpoint map_attrs (g : str -> dict -> dict) (t : node) : node :=
  match t with
  | Tag name attrs contents => Tag name (g name attrs) (map (map_attrs g) contents)
  | NavigableString _ => t
  end.

(** What the loop of [remove_empty_children] leaves of [t], by recursion
    on the tree: every anchor below [t] whose text is empty is gone with
    all it held, and [t] itself stays. *)
Fixpoint decompose_empty_anchors (t : node) : node :=
  match t with
  | Tag name attrs contents =>
      Tag name attrs
        (flat_map (fun c => if is_empty_anchor c then [] else [decompose_empty_anchors c])
           contents)
  | NavigableString _ => t
  end.

(** The paths [find_all] lists for the child [c] at position [i], without
    the position. *)
Definition child_paths (name : str) (c : node) : list (list nat) :=
  (if is_tag name c then [[]] else []) ++ find_all name c.

(** The paths [find_all] lists for the children [l], the first of them at
    position [i]. *)
Fixpoint paths_below (name : str) (i : nat) (l : list node) : list (list nat) :=
  match l with
  | [] => []
  | c :: l' => map (cons i) (child_paths name c) ++ paths_below name (S i) l'
  end.

(** What [clean_tag_attributes] keeps of a tag's attributes. *)
Definition keep_allowed (name : str) (attrs : dict) : dict :=
  filter (fun kv => is_allowed (fst kv)) attrs.

(** The tags [find_all(name, attr=True)] selects. *)
Definition selected (name attr : str) (tag : str * dict) : bool :=
  str_eqb (fst tag) name && has_key attr (snd tag).

(** What a pass of [update_all] that raised nothing did to the attributes
    [attrs] of a tag called [n]. *)
Definition on_tag (name attr : str) (f : dict -> result dict) (n : str) (attrs : dict) : dict :=
  if selected name attr (n, attrs)
  then match f attrs with Ok attrs' => attrs' | Raise _ => attrs end
  else attrs.

(** [f] returns on the attributes of [tag] if [find_all] selects it. *)
Definition returns_on (name attr : str) (f : dict -> result dict) (tag : str * dict) : Prop :=
  selected name attr tag = true -> exists attrs', f (snd tag) = Ok attrs'.

(** No node below [t] is an empty anchor. *)
Definition no_empty_anchor_below (t : node) : Prop :=
  Forall (fun d => is_empty_anchor d = false) (descendants t).

(** What the three passes of [resolve_relative_resource_urls] that raised
    nothing did to the attributes [attrs] of a tag called [n]. *)
Definition resolved (n : str) (attrs : dict) : dict :=
  on_tag (u "object") (u "data") (resolve_resource (u "data")) n
    (on_tag (u "img") (u "src") (resolve_resource (u "src")) n
       (on_tag (u "a") (u "href") update_anchor_href n attrs)).

(** The attributes [attrs] of a tag called [n] in what
    [resolve_relative_resource_urls] returns, if it returns. *)
Definition resolved_printed (n : str) (attrs : dict) : dict :=
  sorted_items (resolved n attrs).

(** The order of the keys. *)
Definition key_le (kv kv' : str * str) : Prop := str_leb (fst kv) (fst kv') = true.

(** [s] without its ASCII whitespace. *)
Definition without_ascii_space (s : str) : str :=
  filter (fun c => negb (is_ascii_space c)) s.

(** The reference of a tag called [n] with attributes [attrs] ([href] of
    an anchor, [src] of an image, [data] of an object), if it has one,
    starts with [http] or [ftp]. *)
Definition absolute (n : str) (attrs : dict) : Prop :=
  forall k v,
    (n = u "a" /\ k = u "href") \/ (n = u "img" /\ k = u "src")
    \/ (n = u "object" /\ k = u "data") ->
    get k attrs = Some v -> match_protocol v = true.

Definition hash : char := 35%N.

(** The number of occurrences of [c] in [s]. *)
Definition count (c : char) (s : str) : nat := count_occ N.eq_dec s c.

(** Only allow-listed keys. *)
Definition only_allowed (d : dict) : Prop :=
  Forall (fun kv => In (fst kv) allowed_attributes) d.

(** The identifier cut before its first [1] component, as
    [table_parent_page] cuts it. *)
Definition cut_at_1 (id : str) : str :=
  match index (u "1") (split (u ".") id) with
  | Some cutoff_index => join (u ".") (firstn cutoff_index (split (u ".") id))
  | None => id
  end.

(** What [find_all_by] lists for the children [l], the first of them at
    position [i]. *)
Fixpoint below_by (sel : node -> bool) (i : nat) (l : list node) : list (list nat * node) :=
  match l with
  | [] => []
  | c :: l' =>
      (if sel c then [([i], c)] else [])
        ++ map (fun qn => (i :: fst qn, snd qn)) (find_all_by sel c)
        ++ below_by sel (S i) l'
  end.

(** ** Induction on trees *)

(** Induction with the hypothesis for every node of [contents]. *)
Section NodeInduction.
Variable P : node -> Prop.
Hypothesis HTag : forall name attrs contents,
    Forall P contents -> P (Tag name attrs contents).
Hypothesis HString : forall s, P (NavigableString s).

Fixpoint node_induction (t : node) : P t :=
  match t with
  | Tag name attrs contents =>
      HTag name attrs
        ((fix all (l : list node) : Forall P l :=
            match l with
            | [] => Forall_nil P
            | c :: l' => Forall_cons c (node_induction c) (all l')
            end) contents)
  | NavigableString s => HString s
  end.
End NodeInduction.

(** ** Sample fragments *)

Module Sample.

(** An anchor with a relative reference, and what [clean_html] makes of it
    the first and the second time. *)
Definition chapter_10_url : str :=
  BASE_SHORT_DICOM_SECTION_URL ++ u "part03/chapter_10.html#sect_10.1.2".

Definition relative_anchor : list node :=
  [Tag (u "a") [(u "href", u "#sect_10.1.2"); (u "shape", u "rect")]
     [NavigableString (u "Section 10.1.2")]].

Definition cleaned_once : list node :=
  [Tag (u "a") [(u "href", chapter_10_url); (u "target", u "_blank")]
     [NavigableString (u "Section 10.1.2")]].

Definition cleaned_twice : list node :=
  [Tag (u "a") [(u "href", chapter_10_url)] [NavigableString (u "Section 10.1.2")]].

(** A paragraph whose only anchor has no text and a reference without
    [#]. *)
Definition empty_anchor_paragraph : list node :=
  [Tag (u "p") [] [Tag (u "a") [(u "href", u "figure.html")] []]].

(** A paragraph, and after it an anchor that has text and a reference
    without [#]. *)
Definition anchor_after_paragraph : list node :=
  [Tag (u "p") [] [NavigableString (u "See the figure.")];
   Tag (u "a") [(u "href", u "figure.html")] [NavigableString (u "the figure")]].

(** Two words with an anchor without text between them, and what
    [clean_html] makes of them. *)
Definition spaced_words : list node :=
  [Tag (u "p") []
     [Tag (u "i") [] [NavigableString (u "x")];
      NavigableString (u " ");
      Tag (u "a") [] [];
      NavigableString (u " ");
      Tag (u "i") [] [NavigableString (u "y")]]].

Definition spaced_words_cleaned : list node :=
  [Tag (u "p") []
     [Tag (u "i") [] [NavigableString (u "x")];
      NavigableString (u " ");
      Tag (u "i") [] [NavigableString (u "y")]]].

(** A table cell whose anchor has text and a reference without [#]. *)
Definition cell_with_bad_reference : list node :=
  [Tag (u "td") [(u "colspan", u "2")]
     [NavigableString (u "See ");
      Tag (u "a") [(u "href", u "figure.html")] [NavigableString (u "the figure")]]].

(** An image and an object, one reference relative and one absolute. *)
Definition figures : list node :=
  [Tag (u "div") []
     [Tag (u "img") [(u "src", u "figures/PS3.3_C.7-1.svg")] [];
      Tag (u "object") [(u "data", u "ftp://medical.nema.org/eq.svg")] [];
      Tag (u "a") [(u "href", u "http://dicom.nema.org/")] [NavigableString (u "DICOM")]]].

Definition figures_resolved : list node :=
  [Tag (u "div") []
     [Tag (u "img") [(u "src", BASE_DICOM_URL ++ u "figures/PS3.3_C.7-1.svg")] [];
      Tag (u "object") [(u "data", u "ftp://medical.nema.org/eq.svg")] [];
      Tag (u "a") [(u "href", u "http://dicom.nema.org/")] [NavigableString (u "DICOM")]]].

(** A section of the standard: its title page with the heading anchor,
    then a table. *)
Definition section_C_7_6_3 : node :=
  Tag (u "[document]") []
    [Tag (u "div") [(u "class", u "section")]
       [Tag (u "div") [(u "class", u "titlepage")]
          [Tag (u "div") []
             [Tag (u "div") []
                [Tag (u "h4") []
                   [Tag (u "a") [(u "id", u "sect_C.7.6.3")] [];
                    NavigableString (u "C.7.6.3 Image Pixel Module")]]]];
        Tag (u "div") [(u "class", u "table")]
          [Tag (u "a") [(u "id", u "table_C.7-11a")] []]]].

Definition table_C_7_11a : element :=
  {| document := section_C_7_6_3; path := [0; 1] |}.

End Sample.

(** ** More samples *)

Module Sample2.

(** A section whose identifier has a [1] component, with a table. *)
Definition section_C_7_1_1 : node :=
  Tag (u "[document]") []
    [Tag (u "div") [(u "class", u "section")]
       [Tag (u "div") [(u "class", u "titlepage")]
          [Tag (u "div") []
             [Tag (u "div") []
                [Tag (u "h4") []
                   [Tag (u "a") [(u "id", u "sect_C.7.1.1")] [];
                    NavigableString (u "C.7.1.1 Patient Module")]]]];
        Tag (u "div") [(u "class", u "table")]
          [Tag (u "a") [(u "id", u "table_C.7-1")] []]]].

Definition table_C_7_1 : element :=
  {| document := section_C_7_1_1; path := [0; 1] |}.

(** An anchor to a section of the same page, as the standard has it. *)
Definition section_anchor : dict :=
  [(u "class", u "xref"); (u "href", u "#sect_10.1.2"); (u "title", u "10.1.2 Example")].

(** [str.lower] on text that has no letters outside ASCII. *)
Definition ascii_lower (s : str) : str :=
  map (fun c => if ((65 <=? c) && (c <=? 90))%N then (c + 32)%N else c) s.

(** Tables named by the [id] of their first anchor, as a stand-in for
    [pr.table_id]. *)
Definition first_anchor_id (table : element) : result str :=
  t <- not_none (node_at (document table) (path table)) ;;
  anchor <- not_none (find (u "a") t) ;;
  not_none (get_attr (u "id") anchor).

Definition table_A : element :=
  {| document := Tag (u "div") [] [Tag (u "a") [(u "id", u "table_A")] []]; path := [] |}.
Definition table_B : element :=
  {| document := Tag (u "div") [] [Tag (u "a") [(u "id", u "table_B")] []]; path := [] |}.
Definition table_without_id : element :=
  {| document := Tag (u "div") [] [Tag (u "a") [] []]; path := [] |}.

(** A chapter of the standard: its title page with the heading anchor,
    and what follows. *)
Definition chapter (id : str) (contents : list node) : node :=
  Tag (u "div") [(u "class", u "chapter")]
    (Tag (u "div") [(u "class", u "titlepage")]
       [Tag (u "div") []
          [Tag (u "div") []
             [Tag (u "h1") [(u "class", u "title")]
                [Tag (u "a") [(u "id", id)] []; NavigableString (u "Title")]]]]
       :: contents).

Definition tdiv (id : str) : node :=
  Tag (u "div") [(u "class", u "table")] [Tag (u "a") [(u "id", id)] []].

(** Two chapters, the second with a table of its own and one in a
    section. *)
Definition standard : node :=
  Tag (u "[document]") []
    [chapter (u "chapter_A") [tdiv (u "table_A.1")];
     chapter (u "chapter_B")
       [tdiv (u "table_B.1");
        Tag (u "div") [(u "class", u "section")] [tdiv (u "table_B.2")]]].

End Sample2.

(** * Properties *)

(** ** Strings *)

Lemma str_eqb_eq (a b : str) : str_eqb a b = true <-> a = b.
Proof.
  revert b; induction a as [|x a IH]; intros [|y b]; simpl; split;
    try congruence; try reflexivity.
  - intros H. apply andb_true_iff in H as [H1 H2].
    apply N.eqb_eq in H1. apply IH in H2. congruence.
  - intros H. inversion H; subst. apply andb_true_iff. split.
    + apply N.eqb_refl.
    + now apply IH.
Qed.

Lemma str_eqb_refl (a : str) : str_eqb a a = true.
Proof. now apply str_eqb_eq. Qed.

Lemma str_eqb_neq (a b : str) : str_eqb a b = false <-> a <> b.
Proof.
  split.
  - intros H E. apply str_eqb_eq in E. congruence.
  - intros H. destruct (str_eqb a b) eqn:E; [|reflexivity].
    apply str_eqb_eq in E. contradiction.
Qed.

(** Splitting on one character gives one piece more than the character
    has occurrences. *)
Lemma split_go_char_length (c : char) (s cur : str) :
  length (split_go [c] 0 cur s) = S (count c s).
Proof.
  revert cur; induction s as [|x s IH]; intros cur; simpl; [reflexivity|].
  unfold count in *. simpl.
  destruct (N.eq_dec x c) as [E|E].
  - subst x. rewrite N.eqb_refl. simpl. now rewrite IH.
  - destruct (N.eqb c x) eqn:E'.
    + apply N.eqb_eq in E'. congruence.
    + simpl. apply IH.
Qed.

Lemma split_char_length (c : char) (s : str) :
  length (split [c] s) = S (count c s).
Proof. apply split_go_char_length. Qed.

Lemma index_None (x : str) (l : list str) : ~ In x l -> index x l = None.
Proof.
  induction l as [|y l IH]; simpl; intros H; [reflexivity|].
  destruct (str_eqb y x) eqn:E.
  - apply str_eqb_eq in E. tauto.
  - rewrite IH; [reflexivity | tauto].
Qed.

Lemma re_split_go_head (alts : list str) (s : str) :
  forall skip cur, exists t rest, re_split_go alts skip cur s = Some t :: rest.
Proof.
  induction s as [|c s IH]; intros skip cur; simpl.
  - eauto.
  - destruct skip as [|k]; [|apply IH].
    destruct (first_alt alts (c :: s)) as [[i m]|]; [eauto | apply IH].
Qed.

Lemma unpack2_length {A} (parts : list A) :
  length parts <> 2 -> unpack2 parts = Raise ValueError.
Proof. destruct parts as [|a [|b [|c l]]]; simpl; intros H; congruence. Qed.

Lemma unpack3_length {A} (parts : list A) :
  length parts <> 3 -> unpack3 parts = Raise ValueError.
Proof. destruct parts as [|a [|b [|c [|d l]]]]; simpl; intros H; congruence. Qed.

(** ** URL resolver: the worked example *)

(** C1, as the code has it: [resolve_href_url "#sect_10.2.1.3"] is the
    short-form base URL followed by [part03/sect_10.2.html#sect_10.2.1.3].
    The page token of [sect_10.2.1.3] is [sect_10.2]: the identifier is cut
    at its [1] component, two components remain, and the [sect_] prefix is
    kept (it is replaced by [chapter_] only when one component remains). *)
Theorem C1_resolve_href_url_sect_10_2_1_3 :
  get_standard_page (u "sect_10.2.1.3") = u "sect_10.2"
  /\ resolve_href_url (u "#sect_10.2.1.3")
     = Ok (BASE_SHORT_DICOM_SECTION_URL ++ u "part03/sect_10.2.html#sect_10.2.1.3").
Proof. split; reflexivity. Qed.

(** C1 as stated fails: the page token is not [10.2] and the URL is not the
    short-form base followed by [part03/10.2.html#sect_10.2.1.3]. *)
Lemma C1_token_keeps_sect_prefix :
  str_eqb (get_standard_page (u "sect_10.2.1.3")) (u "10.2") = false
  /\ resolve_href_url (u "#sect_10.2.1.3")
     <> Ok (BASE_SHORT_DICOM_SECTION_URL ++ u "part03/10.2.html#sect_10.2.1.3").
Proof. split; [reflexivity | vm_compute; discriminate]. Qed.

(** ** Table names *)

(** C7: [clean_table_name] on ["1"], an empty component and
    ["Some Title Module Attributes"], separated by non-breaking spaces, is
    ["Some Title"]. *)
Theorem C7_clean_table_name_example :
  clean_table_name (u "1" ++ [nbsp] ++ [] ++ [nbsp] ++ u "Some Title Module Attributes")
  = Ok (u "Some Title").
Proof. reflexivity. Qed.

(** C8: [clean_table_name] raises [ValueError] on every input that does not
    split on the non-breaking space into exactly three parts, and returns a
    title on every input that does. *)
Theorem C8_clean_table_name_three_parts (name : str) :
  (length (split [nbsp] name) <> 3 -> clean_table_name name = Raise ValueError)
  /\ (length (split [nbsp] name) = 3 -> exists title, clean_table_name name = Ok title).
Proof.
  unfold clean_table_name. split; intros H.
  - now rewrite (unpack3_length _ H).
  - destruct (split [nbsp] name) as [|a [|b [|c [|d l]]]]; try discriminate.
    simpl. unfold re_split.
    destruct (re_split_go_head possible_table_suffixes c 0 []) as (t & rest & E).
    rewrite E. eauto.
Qed.

(** A name without non-breaking spaces, and one with two. *)
Lemma C8_clean_table_name_three_parts_witness :
  clean_table_name (u "Table A.1 Some Title") = Raise ValueError
  /\ exists title, clean_table_name (u "A.1" ++ [nbsp; nbsp] ++ u "Some Title") = Ok title.
Proof.
  split.
  - apply (proj1 (C8_clean_table_name_three_parts (u "Table A.1 Some Title"))).
    vm_compute. discriminate.
  - apply (proj2 (C8_clean_table_name_three_parts (u "A.1" ++ [nbsp; nbsp] ++ u "Some Title"))).
    reflexivity.
Defined.

(** ** Section identifiers without a [1] component *)

(** C9: when no dot-separated component of the identifier is ["1"],
    [get_standard_page] returns the identifier unchanged, and
    [table_parent_page] returns the [id] of the heading anchor unchanged; in
    both it is a value, not an exception. *)
Theorem C9_no_1_component_fallback :
  (forall sect_id : str,
      ~ In (u "1") (split (u ".") sect_id) ->
      get_standard_page sect_id = sect_id)
  /\ (forall (table_div : element) (p d1 d2 d3 anchor : node) (parent_section_id : str),
         parent table_div = Some p ->
         find (u "div") p = Some d1 ->
         find (u "div") d1 = Some d2 ->
         find (u "div") d2 = Some d3 ->
         find (u "a") d3 = Some anchor ->
         get_attr (u "id") anchor = Some parent_section_id ->
         ~ In (u "1") (split (u ".") parent_section_id) ->
         table_parent_page table_div = Ok parent_section_id).
Proof.
  split.
  - intros sect_id H. unfold get_standard_page. now rewrite (index_None _ _ H).
  - intros table_div p d1 d2 d3 anchor id Hp H1 H2 H3 Ha Hid H.
    unfold table_parent_page. rewrite Hp. simpl. rewrite H1. simpl.
    rewrite H2. simpl. rewrite H3. simpl. rewrite Ha. simpl. rewrite Hid. simpl.
    now rewrite (index_None _ _ H).
Qed.

(** ** Lists and [mapM] *)

Lemma flat_map_map {A B C} (f : B -> list C) (g : A -> B) (l : list A) :
  flat_map f (map g l) = flat_map (fun x => f (g x)) l.
Proof. induction l as [|x l IH]; simpl; [reflexivity | now rewrite IH]. Qed.

Lemma flat_map_ext_Forall {A B} (f g : A -> list B) (l : list A) :
  Forall (fun x => f x = g x) l -> flat_map f l = flat_map g l.
Proof. induction 1 as [|x l E _ IH]; simpl; [reflexivity | now rewrite E, IH]. Qed.

Lemma flat_map_flat_map {A B C} (f : B -> list C) (g : A -> list B) (l : list A) :
  flat_map f (flat_map g l) = flat_map (fun x => flat_map f (g x)) l.
Proof.
  induction l as [|x l IH]; simpl; [reflexivity|].
  now rewrite flat_map_app, IH.
Qed.

(** [mapM f] returns exactly when [f] returns on every element. *)
Lemma mapM_Ok {A B} (f : A -> result B) (ok : A -> Prop) (g : A -> B) (l : list A) :
  Forall (fun x => forall y, f x = Ok y <-> ok x /\ y = g x) l ->
  forall l', mapM f l = Ok l' <-> Forall ok l /\ l' = map g l.
Proof.
  induction 1 as [|x l Hx _ IH]; intros l'; simpl.
  - split; [intros E; inversion E; auto | intros [_ ->]; reflexivity].
  - split.
    + destruct (f x) as [y|e] eqn:Ey; simpl; [|discriminate].
      destruct (mapM f l) as [ys|e] eqn:Eys; simpl; [|discriminate].
      intros E; inversion E; subst l'.
      destruct (proj1 (Hx y) eq_refl) as [Hok ->].
      destruct (proj1 (IH ys) eq_refl) as [Hall ->]. auto.
    + intros [Hall ->]. inversion Hall as [|? ? Hok Hall']; subst.
      rewrite (proj2 (Hx (g x)) (conj Hok eq_refl)). simpl.
      rewrite (proj2 (IH (map g l)) (conj Hall' eq_refl)). reflexivity.
Qed.

(** ** Attribute dictionaries *)

Lemma get_setitem_same (k v : str) (d : dict) : get k (setitem k v d) = Some v.
Proof.
  induction d as [|[k' v'] d IH]; simpl.
  - now rewrite str_eqb_refl.
  - destruct (str_eqb k' k) eqn:E; simpl.
    + now rewrite str_eqb_refl.
    + now rewrite E.
Qed.

Lemma get_setitem_other (k k0 v : str) (d : dict) :
  k0 <> k -> get k0 (setitem k v d) = get k0 d.
Proof.
  intros Hk. induction d as [|[k' v'] d IH]; simpl.
  - destruct (str_eqb k k0) eqn:E; [|reflexivity].
    apply str_eqb_eq in E. congruence.
  - destruct (str_eqb k' k) eqn:E; simpl.
    + apply str_eqb_eq in E. subst k'.
      destruct (str_eqb k k0) eqn:E0; [|reflexivity].
      apply str_eqb_eq in E0. congruence.
    + now rewrite IH.
Qed.

Lemma get_keep_allowed (n k : str) (d : dict) :
  get k (keep_allowed n d) = if is_allowed k then get k d else None.
Proof.
  unfold keep_allowed. induction d as [|[k' v'] d IH]; simpl.
  - now destruct (is_allowed k).
  - destruct (str_eqb k' k) eqn:E.
    + apply str_eqb_eq in E. subst k'.
      destruct (is_allowed k) eqn:Ek; simpl.
      * now rewrite str_eqb_refl.
      * rewrite IH. reflexivity.
    + destruct (is_allowed k'); simpl; [rewrite E|]; apply IH.
Qed.

Lemma is_allowed_In (k : str) : is_allowed k = true <-> In k allowed_attributes.
Proof.
  unfold is_allowed. rewrite existsb_exists. split.
  - intros (x & Hx & E). apply str_eqb_eq in E. now subst.
  - intros H. exists k. split; [assumption | apply str_eqb_refl].
Qed.

Lemma keep_allowed_only (n : str) (d : dict) : only_allowed (keep_allowed n d).
Proof.
  unfold only_allowed, keep_allowed. apply Forall_forall. intros kv H.
  apply filter_In in H as [_ H]. now apply is_allowed_In.
Qed.

Lemma keep_allowed_id (n : str) (d : dict) : only_allowed d -> keep_allowed n d = d.
Proof.
  unfold only_allowed, keep_allowed. induction 1 as [|kv d H _ IH]; simpl; [reflexivity|].
  apply is_allowed_In in H. now rewrite H, IH.
Qed.

(** ** Attribute maps over a tree *)

Lemma clean_all_map_attrs (t : node) : clean_all t = map_attrs keep_allowed t.
Proof.
  induction t as [name attrs contents IH|s] using node_induction; simpl; [|reflexivity].
  unfold keep_allowed at 1. f_equal. now apply map_ext_Forall.
Qed.

Lemma text_map_attrs (g : str -> dict -> dict) (t : node) : text (map_attrs g t) = text t.
Proof.
  induction t as [name attrs contents IH|s] using node_induction; simpl; [|reflexivity].
  rewrite flat_map_map. now apply flat_map_ext_Forall.
Qed.

Lemma is_empty_anchor_map_attrs (g : str -> dict -> dict) (t : node) :
  is_empty_anchor (map_attrs g t) = is_empty_anchor t.
Proof.
  unfold is_empty_anchor. rewrite text_map_attrs. now destruct t.
Qed.

Lemma tags_map_attrs (g : str -> dict -> dict) (t : node) :
  tags (map_attrs g t) = map (fun na => (fst na, g (fst na) (snd na))) (tags t).
Proof.
  induction t as [name attrs contents IH|s] using node_induction; simpl; [|reflexivity].
  f_equal. rewrite flat_map_map.
  induction IH as [|c l E _ IHl]; simpl; [reflexivity|].
  now rewrite map_app, E, IHl.
Qed.

Lemma map_attrs_compose (g h : str -> dict -> dict) (t : node) :
  map_attrs g (map_attrs h t) = map_attrs (fun n a => g n (h n a)) t.
Proof.
  induction t as [name attrs contents IH|s] using node_induction; simpl; [|reflexivity].
  f_equal. rewrite map_map. now apply map_ext_Forall.
Qed.

(** Two attribute maps that agree on the tags of [t] agree on [t]. *)
Lemma map_attrs_ext (g h : str -> dict -> dict) (t : node) :
  Forall (fun na => g (fst na) (snd na) = h (fst na) (snd na)) (tags t) ->
  map_attrs g t = map_attrs h t.
Proof.
  induction t as [name attrs contents IH|s] using node_induction; simpl; [|reflexivity].
  intros H. inversion H as [|? ? E Hc]; subst. simpl in E. rewrite E. f_equal.
  apply Forall_flat_map in Hc. apply map_ext_Forall.
  rewrite Forall_forall in *. auto.
Qed.

Lemma map_attrs_id (g : str -> dict -> dict) (t : node) :
  Forall (fun na => g (fst na) (snd na) = snd na) (tags t) -> map_attrs g t = t.
Proof.
  induction t as [name attrs contents IH|s] using node_induction; simpl; [|reflexivity].
  intros H. inversion H as [|? ? E Hc]; subst. simpl in E. rewrite E. f_equal.
  apply Forall_flat_map in Hc. rewrite <- (map_id contents) at 2.
  apply map_ext_Forall. rewrite Forall_forall in *. auto.
Qed.

(** ** Removing empty anchors *)

Lemma map_flat_map {A B C} (h : B -> C) (f : A -> list B) (l : list A) :
  map h (flat_map f l) = flat_map (fun x => map h (f x)) l.
Proof.
  induction l as [|x l IH]; simpl; [reflexivity | now rewrite map_app, IH].
Qed.

Lemma flat_map_singleton {A} (l : list A) : flat_map (fun x => [x]) l = l.
Proof. induction l as [|x l IH]; simpl; [reflexivity | now rewrite IH]. Qed.

Lemma is_empty_anchor_text (t : node) : is_empty_anchor t = true -> text t = [].
Proof.
  unfold is_empty_anchor. intros H. apply andb_true_iff in H as [_ H].
  now apply str_eqb_eq.
Qed.

(** Taking the empty anchors out takes no text away. *)
Lemma text_decompose (t : node) : text (decompose_empty_anchors t) = text t.
Proof.
  induction t as [name attrs contents IH|s] using node_induction; simpl; [|reflexivity].
  rewrite flat_map_flat_map. apply flat_map_ext_Forall.
  eapply Forall_impl; [|exact IH]. intros c Hc. simpl in Hc.
  destruct (is_empty_anchor c) eqn:E; simpl.
  - symmetry. now apply is_empty_anchor_text.
  - now rewrite app_nil_r.
Qed.

Lemma is_empty_anchor_decompose (t : node) :
  is_empty_anchor (decompose_empty_anchors t) = is_empty_anchor t.
Proof.
  unfold is_empty_anchor. rewrite text_decompose. now destruct t.
Qed.

Lemma decompose_no_empty_anchor (t : node) :
  no_empty_anchor_below (decompose_empty_anchors t).
Proof.
  unfold no_empty_anchor_below.
  induction t as [name attrs contents IH|s] using node_induction; simpl; [|constructor].
  rewrite flat_map_flat_map. apply Forall_flat_map.
  eapply Forall_impl; [|exact IH]. intros c Hc. simpl in Hc.
  destruct (is_empty_anchor c) eqn:E; simpl; [constructor|].
  rewrite app_nil_r. constructor; [|assumption].
  now rewrite is_empty_anchor_decompose.
Qed.

Lemma decompose_fixed (t : node) :
  no_empty_anchor_below t -> decompose_empty_anchors t = t.
Proof.
  unfold no_empty_anchor_below.
  induction t as [name attrs contents IH|s] using node_induction; simpl; [|reflexivity].
  intros H. apply Forall_flat_map in H. f_equal.
  rewrite <- (flat_map_singleton contents) at 2. apply flat_map_ext_Forall.
  rewrite Forall_forall in *. intros c Hc.
  specialize (H c Hc). inversion H as [|? ? E Hd]; subst.
  now rewrite E, (IH c Hc Hd).
Qed.

Lemma decompose_map_attrs (g : str -> dict -> dict) (t : node) :
  decompose_empty_anchors (map_attrs g t) = map_attrs g (decompose_empty_anchors t).
Proof.
  induction t as [name attrs contents IH|s] using node_induction; simpl; [|reflexivity].
  f_equal. rewrite flat_map_map, map_flat_map. apply flat_map_ext_Forall.
  eapply Forall_impl; [|exact IH]. intros c Hc. simpl in Hc.
  rewrite is_empty_anchor_map_attrs.
  destruct (is_empty_anchor c); simpl; [reflexivity | now rewrite Hc].
Qed.

Lemma no_empty_anchor_map_attrs (g : str -> dict -> dict) (t : node) :
  no_empty_anchor_below t -> no_empty_anchor_below (map_attrs g t).
Proof.
  unfold no_empty_anchor_below.
  induction t as [name attrs contents IH|s] using node_induction; simpl; [|constructor].
  intros H. apply Forall_flat_map in H. rewrite flat_map_map. apply Forall_flat_map.
  rewrite Forall_forall in *. intros c Hc.
  specialize (H c Hc). inversion H as [|? ? E Hd]; subst.
  constructor; [now rewrite is_empty_anchor_map_attrs | now apply IH].
Qed.

(** ** The order of the attributes *)

Lemma str_leb_refl (a : str) : str_leb a a = true.
Proof. induction a as [|x a IH]; simpl; [reflexivity|]. now rewrite N.eqb_refl. Qed.

Lemma str_leb_total (a b : str) : str_leb a b = false -> str_leb b a = true.
Proof.
  revert b; induction a as [|x a IH]; intros [|y b]; simpl;
    try discriminate; try reflexivity.
  destruct (N.eqb_spec x y) as [->|Hxy].
  - rewrite N.eqb_refl. apply IH.
  - destruct (N.eqb_spec y x) as [->|_]; [congruence|].
    intros H. apply N.ltb_ge in H. apply N.ltb_lt. lia.
Qed.

Lemma str_leb_trans (a b c : str) :
  str_leb a b = true -> str_leb b c = true -> str_leb a c = true.
Proof.
  revert b c; induction a as [|x a IH]; intros [|y b] [|z c]; simpl;
    try discriminate; try reflexivity.
  destruct (N.eqb_spec x y) as [->|Hxy].
  - destruct (N.eqb_spec y z) as [->|Hyz]; [apply IH | auto].
  - intros H1. apply N.ltb_lt in H1. destruct (N.eqb_spec y z) as [->|Hyz].
    + intros _. destruct (N.eqb_spec x z); [lia|]. now apply N.ltb_lt.
    + intros H2. apply N.ltb_lt in H2.
      destruct (N.eqb_spec x z); [lia|]. apply N.ltb_lt. lia.
Qed.

(** Sorting moves no value to another key: the sort is stable. *)
Lemma get_insert_item (k : str) (kv : str * str) (d : dict) :
  get k (insert_item kv d) = get k (kv :: d).
Proof.
  destruct kv as [k0 v0]. induction d as [|[k1 v1] d IH]; [reflexivity|].
  simpl insert_item. destruct (str_leb k0 k1) eqn:E; [reflexivity|].
  change (get k ((k1, v1) :: insert_item (k0, v0) d))
    with (if str_eqb k1 k then Some v1 else get k (insert_item (k0, v0) d)).
  rewrite IH. simpl.
  destruct (str_eqb k1 k) eqn:E1; [|reflexivity].
  destruct (str_eqb k0 k) eqn:E0; [|reflexivity].
  apply str_eqb_eq in E1, E0. subst. now rewrite str_leb_refl in E.
Qed.

Lemma get_sorted_items (k : str) (d : dict) : get k (sorted_items d) = get k d.
Proof.
  induction d as [|[k0 v0] d IH]; [reflexivity|].
  change (sorted_items ((k0, v0) :: d)) with (insert_item (k0, v0) (sorted_items d)).
  rewrite get_insert_item. simpl. now rewrite IH.
Qed.

Lemma Forall_insert_item (Q : str * str -> Prop) (kv : str * str) (d : dict) :
  Forall Q (insert_item kv d) <-> Forall Q (kv :: d).
Proof.
  induction d as [|kv' d IH]; simpl; [reflexivity|].
  destruct (str_leb (fst kv) (fst kv')); [reflexivity|].
  rewrite !Forall_cons_iff, IH, Forall_cons_iff. tauto.
Qed.

Lemma Forall_sorted_items (Q : str * str -> Prop) (d : dict) :
  Forall Q (sorted_items d) <-> Forall Q d.
Proof.
  induction d as [|kv d IH]; [reflexivity|].
  change (sorted_items (kv :: d)) with (insert_item kv (sorted_items d)).
  now rewrite Forall_insert_item, !Forall_cons_iff, IH.
Qed.

Lemma insert_item_sorted (kv : str * str) (d : dict) :
  StronglySorted key_le d -> StronglySorted key_le (insert_item kv d).
Proof.
  induction 1 as [|kv' d Hd IH Hall]; simpl.
  - constructor; constructor.
  - destruct (str_leb (fst kv) (fst kv')) eqn:E.
    + constructor; [now constructor|]. constructor; [exact E|].
      eapply Forall_impl; [|exact Hall]. intros kv'' H.
      unfold key_le in *. eapply str_leb_trans; eauto.
    + constructor; [exact IH|]. apply Forall_insert_item. constructor; [|exact Hall].
      now apply str_leb_total.
Qed.

Lemma sorted_items_sorted (d : dict) : StronglySorted key_le (sorted_items d).
Proof.
  induction d as [|kv d IH]; [constructor|].
  change (sorted_items (kv :: d)) with (insert_item kv (sorted_items d)).
  now apply insert_item_sorted.
Qed.

Lemma insert_item_head (kv : str * str) (d : dict) :
  Forall (key_le kv) d -> insert_item kv d = kv :: d.
Proof.
  destruct d as [|kv' d]; [reflexivity|]. intros H. simpl.
  apply Forall_inv in H. unfold key_le in H. now rewrite H.
Qed.

Lemma sorted_items_fixed (d : dict) : StronglySorted key_le d -> sorted_items d = d.
Proof.
  induction 1 as [|kv d Hd IH Hall]; [reflexivity|].
  change (sorted_items (kv :: d)) with (insert_item kv (sorted_items d)).
  rewrite IH. now apply insert_item_head.
Qed.

Lemma sorted_items_idempotent (d : dict) : sorted_items (sorted_items d) = sorted_items d.
Proof. apply sorted_items_fixed, sorted_items_sorted. Qed.

Lemma filter_insert_item (p : str * str -> bool) (kv : str * str) (d : dict) :
  StronglySorted key_le d ->
  filter p (insert_item kv d)
  = if p kv then insert_item kv (filter p d) else filter p d.
Proof.
  induction 1 as [|kv' d Hd IH Hall]; simpl; [now destruct (p kv)|].
  destruct (str_leb (fst kv) (fst kv')) eqn:E; simpl.
  - destruct (p kv) eqn:Ep; [|reflexivity].
    symmetry. apply insert_item_head.
    assert (H : Forall (key_le kv) (kv' :: d)).
    { constructor; [exact E|]. eapply Forall_impl; [|exact Hall]. intros kv'' H.
      unfold key_le in *. eapply str_leb_trans; eauto. }
    apply Forall_forall. intros x Hx.
    rewrite Forall_forall in H. apply H.
    change (In x (filter p (kv' :: d))) in Hx. now apply filter_In in Hx as [Hx _].
  - rewrite IH. destruct (p kv'), (p kv); simpl; try reflexivity.
    now rewrite E.
Qed.

(** Filtering the attributes and sorting them commute. *)
Lemma sorted_items_filter (p : str * str -> bool) (d : dict) :
  sorted_items (filter p d) = filter p (sorted_items d).
Proof.
  induction d as [|kv d IH]; [reflexivity|].
  change (sorted_items (kv :: d)) with (insert_item kv (sorted_items d)).
  rewrite filter_insert_item by apply sorted_items_sorted.
  simpl. destruct (p kv); [|exact IH].
  change (sorted_items (kv :: filter p d)) with (insert_item kv (sorted_items (filter p d))).
  now rewrite IH.
Qed.

Lemma sorted_attributes_map_attrs (t : node) :
  sorted_attributes t = map_attrs (fun _ d => sorted_items d) t.
Proof.
  induction t as [name attrs contents IH|s] using node_induction; simpl; [|reflexivity].
  f_equal. now apply map_ext_Forall.
Qed.

(** ** Printing and parsing *)

(** The parser makes no string, or one that it would make again. *)
Lemma end_data_cases (preserve : bool) (data : str) :
  (data = [] /\ end_data preserve data = [])
  \/ exists s, data <> [] /\ s <> []
               /\ end_data preserve data = [NavigableString s]
               /\ end_data preserve s = [NavigableString s]
               /\ without_ascii_space s = without_ascii_space data.
Proof.
  destruct data as [|c data]; [now left|]. right.
  unfold end_data. destruct preserve; simpl negb; cbv iota beta.
  - exists (c :: data). simpl andb. cbv iota. repeat split; discriminate.
  - rewrite andb_true_l.
    destruct (forallb is_ascii_space (c :: data)) eqn:E.
    + assert (W : without_ascii_space (c :: data) = []).
      { unfold without_ascii_space. rewrite forallb_forall in E.
        generalize dependent (c :: data). intros l E.
        induction l as [|x l IH]; simpl; [reflexivity|].
        rewrite (E x (or_introl eq_refl)). simpl. apply IH.
        intros y Hy. apply E. now right. }
      destruct (existsb (N.eqb 10) (c :: data)).
      * exists [10%N]. rewrite W. repeat split; discriminate.
      * exists [32%N]. rewrite W. repeat split; discriminate.
    + exists (c :: data). rewrite E. repeat split; discriminate.
Qed.

Lemma parse_contents_end_data (preserve : bool) (data : str) (name : str) (attrs : dict)
      (contents l : list node) :
  parse_contents preserve [] (end_data preserve data ++ Tag name attrs contents :: l)
  = end_data preserve data ++ Tag name attrs contents :: parse_contents preserve [] l.
Proof.
  destruct (end_data_cases preserve data) as [[_ E]|(s & _ & _ & E & Es & _)];
    rewrite E; [reflexivity|].
  simpl. now rewrite Es.
Qed.

(** Parsing what was parsed changes nothing. *)
Lemma parse_contents_idempotent (preserve : bool) (l : list node) :
  forall data,
    parse_contents preserve [] (parse_contents preserve data l)
    = parse_contents preserve data l.
Proof.
  induction l as [|[name attrs contents|s] l IH]; intros data; simpl.
  - destruct (end_data_cases preserve data) as [[_ E]|(s & _ & _ & E & Es & _)];
      rewrite E; [reflexivity|]. simpl. exact Es.
  - now rewrite parse_contents_end_data, IH.
  - apply IH.
Qed.

(** A function that leaves strings as they are and tags tags goes through
    the parser. *)
Lemma map_parse_contents (f : node -> node) (preserve : bool) (l : list node) :
  (forall s, f (NavigableString s) = NavigableString s) ->
  (forall t, is_string t = false -> is_string (f t) = false) ->
  forall data,
    parse_contents preserve data (map f l) = map f (parse_contents preserve data l).
Proof.
  intros Hs Ht.
  assert (E : forall data, map f (end_data preserve data) = end_data preserve data).
  { intros data.
    destruct (end_data_cases preserve data) as [[_ E]|(s & _ & _ & E & _)];
      rewrite E; [reflexivity|]. simpl. now rewrite Hs. }
  induction l as [|[name attrs contents|s] l IH]; intros data; simpl.
  - now rewrite E.
  - specialize (Ht (Tag name attrs contents) eq_refl).
    destruct (f (Tag name attrs contents)) as [n' a' c'|s'] eqn:Ef; [|discriminate].
    now rewrite map_app, E, IH, <- Ef.
  - rewrite Hs. apply IH.
Qed.

Lemma tags_parse_contents (preserve : bool) (l : list node) :
  forall data, flat_map tags (parse_contents preserve data l) = flat_map tags l.
Proof.
  induction l as [|[name attrs contents|s] l IH]; intros data; simpl.
  - destruct (end_data_cases preserve data) as [[_ E]|(s & _ & _ & E & _)];
      now rewrite E.
  - rewrite flat_map_app. simpl. rewrite IH.
    destruct (end_data_cases preserve data) as [[_ E]|(s & _ & _ & E & _)];
      now rewrite E.
  - apply IH.
Qed.

Lemma Forall_parse_contents (Q : node -> Prop) (preserve : bool) (l : list node) :
  (forall s, Q (NavigableString s)) ->
  Forall Q l -> forall data, Forall Q (parse_contents preserve data l).
Proof.
  intros Hs. 
  assert (E : forall data, Forall Q (end_data preserve data)).
  { intros data.
    destruct (end_data_cases preserve data) as [[_ E]|(s & _ & _ & E & _)];
      rewrite E; repeat constructor. apply Hs. }
  induction 1 as [|[name attrs contents|s] l Hx Hl IH]; intros data; simpl.
  - apply E.
  - apply Forall_app. split; [apply E|]. constructor; [exact Hx | apply IH].
  - apply IH.
Qed.

(** The parser makes an empty text of an empty text only. *)
Lemma text_parse_contents_nil (preserve : bool) (l : list node) :
  forall data,
    flat_map text (parse_contents preserve data l) = []
    <-> data ++ flat_map text l = [].
Proof.
  assert (E : forall data, flat_map text (end_data preserve data) = [] <-> data = []).
  { intros data.
    destruct (end_data_cases preserve data) as [[-> E]|(s & Hd & Hne & E & _)];
      rewrite E; simpl; [tauto|]. rewrite app_nil_r. tauto. }
  induction l as [|[name attrs contents|s] l IH]; intros data; simpl.
  - now rewrite app_nil_r.
  - rewrite flat_map_app. simpl.
    split; intros H.
    + apply app_eq_nil in H as [H1 H2]. apply (proj1 (E data)) in H1. subst data. simpl.
      apply app_eq_nil in H2 as [H2 H3]. rewrite H2. simpl.
      now apply (IH []).
    + apply app_eq_nil in H as [-> H]. apply app_eq_nil in H as [H2 H3].
      rewrite (proj2 (E []) eq_refl), H2. simpl. now apply (IH []).
  - rewrite IH. now rewrite app_assoc.
Qed.

Lemma without_ascii_space_app (a b : str) :
  without_ascii_space (a ++ b) = without_ascii_space a ++ without_ascii_space b.
Proof. apply filter_app. Qed.

(** The parser changes ASCII whitespace only. *)
Lemma text_parse_contents (preserve : bool) (l : list node) :
  forall data,
    without_ascii_space (flat_map text (parse_contents preserve data l))
    = without_ascii_space (data ++ flat_map text l).
Proof.
  assert (E : forall data,
             without_ascii_space (flat_map text (end_data preserve data))
             = without_ascii_space data).
  { intros data.
    destruct (end_data_cases preserve data) as [[-> E]|(s & _ & _ & E & _ & W)];
      rewrite E; simpl; [reflexivity|]. now rewrite app_nil_r. }
  induction l as [|[name attrs contents|s] l IH]; intros data; simpl.
  - now rewrite app_nil_r.
  - rewrite flat_map_app. simpl.
    rewrite !without_ascii_space_app, E, (IH []). reflexivity.
  - rewrite IH. now rewrite app_assoc.
Qed.

Lemma tags_reparse (t : node) :
  forall preserve,
    tags (reparse preserve t)
    = map (fun tag => (fst tag, sorted_items (snd tag))) (tags t).
Proof.
  induction t as [name attrs contents IH|s] using node_induction; intros preserve; simpl;
    [|reflexivity].
  f_equal. rewrite tags_parse_contents, flat_map_map, map_flat_map.
  apply flat_map_ext_Forall. eapply Forall_impl; [|exact IH]. intros c Hc. apply Hc.
Qed.

Lemma flat_map_nil {A B} (f : A -> list B) (l : list A) :
  flat_map f l = [] <-> Forall (fun x => f x = []) l.
Proof.
  induction l as [|x l IH]; simpl; [split; [constructor | reflexivity]|].
  rewrite Forall_cons_iff, <- IH. split.
  - apply app_eq_nil.
  - intros [-> ->]. reflexivity.
Qed.

Lemma text_reparse_nil (t : node) :
  forall preserve, text (reparse preserve t) = [] <-> text t = [].
Proof.
  induction t as [name attrs contents IH|s] using node_induction; intros preserve; simpl;
    [|reflexivity].
  rewrite text_parse_contents_nil. simpl.
  rewrite flat_map_map, flat_map_nil, (flat_map_nil text contents).
  split; intros H; rewrite Forall_forall in *; intros c Hc.
  - apply (IH c Hc (preserve || preserves_whitespace name)). now apply H.
  - apply (IH c Hc (preserve || preserves_whitespace name)). now apply H.
Qed.

Lemma filter_flat_map {A B} (p : B -> bool) (f : A -> list B) (l : list A) :
  filter p (flat_map f l) = flat_map (fun x => filter p (f x)) l.
Proof.
  induction l as [|x l IH]; simpl; [reflexivity | now rewrite filter_app, IH].
Qed.

(** Printing and parsing changes ASCII whitespace only. *)
Lemma text_reparse (t : node) :
  forall preserve,
    without_ascii_space (text (reparse preserve t)) = without_ascii_space (text t).
Proof.
  induction t as [name attrs contents IH|s] using node_induction; intros preserve; simpl;
    [|reflexivity].
  rewrite text_parse_contents. simpl. rewrite flat_map_map.
  unfold without_ascii_space in *. rewrite !filter_flat_map.
  apply flat_map_ext_Forall. eapply Forall_impl; [|exact IH]. intros c Hc. apply Hc.
Qed.

Lemma is_empty_anchor_reparse (preserve : bool) (t : node) :
  is_empty_anchor (reparse preserve t) = is_empty_anchor t.
Proof.
  unfold is_empty_anchor. f_equal; [now destruct t|].
  pose proof (text_reparse_nil t preserve) as H.
  destruct (str_eqb (text (reparse preserve t)) []) eqn:E1,
           (str_eqb (text t) []) eqn:E2; try reflexivity.
  - apply str_eqb_eq in E1. apply str_eqb_neq in E2. tauto.
  - apply str_eqb_eq in E2. apply str_eqb_neq in E1. tauto.
Qed.

Lemma no_empty_anchor_reparse (t : node) :
  forall preserve, no_empty_anchor_below t -> no_empty_anchor_below (reparse preserve t).
Proof.
  unfold no_empty_anchor_below.
  induction t as [name attrs contents IH|s] using node_induction; intros preserve; simpl;
    [|constructor].
  intros H. apply Forall_flat_map in H. apply Forall_flat_map.
  apply Forall_parse_contents; [intros s; repeat constructor|].
  apply Forall_map. rewrite Forall_forall in *. intros c Hc.
  specialize (H c Hc). inversion H as [|? ? E Hd]; subst.
  constructor; [now rewrite is_empty_anchor_reparse | now apply IH].
Qed.

(** A tree that was parsed, with other attributes, is parsed to itself
    with the attributes sorted. *)
Lemma reparse_map_attrs (g : str -> dict -> dict) (t : node) :
  forall preserve,
    reparse preserve (map_attrs g (reparse preserve t))
    = map_attrs (fun n d => sorted_items (g n d)) (reparse preserve t).
Proof.
  induction t as [name attrs contents IH|s] using node_induction; intros preserve; simpl;
    [|reflexivity].
  f_equal.
  set (p := preserve || preserves_whitespace name).
  set (g' := fun n d => sorted_items (g n d)).
  assert (Hg : forall h, forall data l,
               parse_contents p data (map (map_attrs h) l)
               = map (map_attrs h) (parse_contents p data l)).
  { intros h data l. apply map_parse_contents; [reflexivity|]. now intros [? ? ?|?]. }
  rewrite map_map.
  rewrite <- (map_parse_contents (fun c => reparse p (map_attrs g c)) p
                (map (reparse p) contents)); [|reflexivity | now intros [? ? ?|?]].
  rewrite map_map.
  assert (E : map (fun c => reparse p (map_attrs g (reparse p c))) contents
              = map (map_attrs g') (map (reparse p) contents)).
  { rewrite map_map. apply map_ext_Forall.
    eapply Forall_impl; [|exact IH]. intros c Hc. apply Hc. }
  rewrite E, parse_contents_idempotent. apply Hg.
Qed.

(** On a document that was parsed and had attributes changed since,
    [printed] is [sorted_attributes]. *)
Lemma printed_map_attrs (g : str -> dict -> dict) (html : list node) :
  printed (map (map_attrs g) (printed html))
  = map sorted_attributes (map (map_attrs g) (printed html)).
Proof.
  unfold printed.
  set (g' := fun n d => sorted_items (g n d)).
  assert (Hg : forall h, forall data l,
               parse_contents false data (map (map_attrs h) l)
               = map (map_attrs h) (parse_contents false data l)).
  { intros h data l. apply map_parse_contents; [reflexivity|]. now intros [? ? ?|?]. }
  assert (R : map sorted_attributes
                (map (map_attrs g) (parse_contents false [] (map (reparse false) html)))
              = map (map_attrs g') (parse_contents false [] (map (reparse false) html))).
  { rewrite map_map. apply map_ext. intros t.
    now rewrite sorted_attributes_map_attrs, map_attrs_compose. }
  rewrite R, map_map.
  rewrite <- (map_parse_contents (fun c => reparse false (map_attrs g c)) false
                (map (reparse false) html)); [|reflexivity | now intros [? ? ?|?]].
  rewrite map_map.
  assert (E : map (fun c => reparse false (map_attrs g (reparse false c))) html
              = map (map_attrs g') (map (reparse false) html)).
  { rewrite map_map. apply map_ext. intros c. apply reparse_map_attrs. }
  rewrite E, parse_contents_idempotent. apply Hg.
Qed.

Lemma reparse_idempotent (preserve : bool) (t : node) :
  reparse preserve (reparse preserve t) = reparse preserve t.
Proof.
  assert (E : forall t', map_attrs (fun _ d => d) t' = t').
  { intros t'. apply map_attrs_id. apply Forall_forall. reflexivity. }
  rewrite <- (E (reparse preserve t)) at 1. rewrite reparse_map_attrs.
  apply map_attrs_id. rewrite tags_reparse. apply Forall_map.
  apply Forall_forall. intros tag _. simpl. apply sorted_items_idempotent.
Qed.

Lemma printed_Tag (name : str) (attrs : dict) (contents : list node) :
  printed [Tag name attrs contents] = [reparse false (Tag name attrs contents)].
Proof. reflexivity. Qed.

(** ** The loop of [remove_empty_children] *)

Lemma marked_text_mark (t : node) : marked_text (mark t) = text t.
Proof.
  induction t as [name attrs contents IH|s] using node_induction; simpl; [|reflexivity].
  rewrite flat_map_map. now apply flat_map_ext_Forall.
Qed.

Lemma find_all_Tag (name n : str) (attrs : dict) (contents : list node) :
  find_all name (Tag n attrs contents) = paths_below name 0 contents.
Proof.
  simpl. generalize 0. induction contents as [|c l IH]; intros i; simpl; [reflexivity|].
  unfold child_paths. rewrite IH, map_app, <- app_assoc.
  now destruct (is_tag name c).
Qed.

Lemma update_nth_ext {A} (f g : A -> A) (i : nat) (l : list A) :
  (forall x, nth_error l i = Some x -> f x = g x) -> update_nth f i l = update_nth g i l.
Proof.
  revert i; induction l as [|x l IH]; intros [|i] H; simpl; try reflexivity.
  - now rewrite (H x eq_refl).
  - now rewrite IH.
Qed.

Lemma update_nth_id {A} (f : A -> A) (i : nat) (l : list A) :
  (forall x, nth_error l i = Some x -> f x = x) -> update_nth f i l = l.
Proof.
  revert i; induction l as [|x l IH]; intros [|i] H; simpl; try reflexivity.
  - now rewrite (H x eq_refl).
  - now rewrite IH.
Qed.

Lemma update_nth_compose {A} (f g : A -> A) (i : nat) (l : list A) :
  update_nth g i (update_nth f i l) = update_nth (fun x => g (f x)) i l.
Proof.
  revert i; induction l as [|x l IH]; intros [|i]; simpl; try reflexivity.
  now rewrite IH.
Qed.

Lemma update_nth_app {A} (f : A -> A) (pre : list A) (x : A) (l : list A) :
  update_nth f (length pre) (pre ++ x :: l) = pre ++ f x :: l.
Proof. induction pre as [|y pre IH]; simpl; [reflexivity | now rewrite IH]. Qed.

(** A turn of the loop for an anchor below the child at position [i]
    changes that child only. *)
Lemma decompose_if_empty_below (n : str) (attrs : dict) (contents : list marked)
      (i : nat) (p : list nat) :
  decompose_if_empty (MTag false n attrs contents) (i :: p)
  = MTag false n attrs (update_nth (fun c => decompose_if_empty c p) i contents).
Proof.
  unfold decompose_if_empty at 1. simpl.
  destruct (nth_error contents i) as [c|] eqn:E.
  - destruct (str_eqb (text_at c p) []) eqn:Et.
    + f_equal. apply update_nth_ext. intros x Hx. rewrite E in Hx. injection Hx as <-.
      unfold decompose_if_empty. now rewrite Et.
    + f_equal. symmetry. apply update_nth_id. intros x Hx. rewrite E in Hx.
      injection Hx as <-. unfold decompose_if_empty. now rewrite Et.
  - simpl. f_equal. apply update_nth_ext. intros x Hx. congruence.
Qed.

Lemma fold_decompose_below (n : str) (attrs : dict) (i : nat) (ps : list (list nat)) :
  forall contents,
    fold_left decompose_if_empty (map (cons i) ps) (MTag false n attrs contents)
    = MTag false n attrs
        (update_nth (fun c => fold_left decompose_if_empty ps c) i contents).
Proof.
  induction ps as [|p ps IH]; intros contents; simpl.
  - f_equal. symmetry. now apply update_nth_id.
  - now rewrite decompose_if_empty_below, IH, update_nth_compose.
Qed.

(** What is decomposed stays decomposed. *)
Lemma fold_decomposed (ps : list (list nat)) :
  forall m, is_decomposed m = true ->
            is_decomposed (fold_left decompose_if_empty ps m) = true.
Proof.
  induction ps as [|p ps IH]; intros m H; simpl; [assumption|].
  apply IH. destruct m as [d n attrs contents|s]; simpl in H; [|discriminate].
  subst d. unfold decompose_if_empty. simpl. now destruct p.
Qed.

Lemma fold_paths_below (name n : str) (attrs : dict) (l : list node) :
  forall pre,
    fold_left decompose_if_empty (paths_below name (length pre) l)
      (MTag false n attrs (pre ++ map mark l))
    = MTag false n attrs
        (pre ++ map (fun c => fold_left decompose_if_empty (child_paths name c) (mark c)) l).
Proof.
  induction l as [|c l IH]; intros pre; simpl; [reflexivity|].
  rewrite fold_left_app, fold_decompose_below, update_nth_app.
  specialize (IH (pre ++ [fold_left decompose_if_empty (child_paths name c) (mark c)])).
  rewrite length_app, Nat.add_1_r, <- !app_assoc in IH. exact IH.
Qed.

(** The turn of the loop for the tag at the top of an untouched tree. *)
Lemma decompose_if_empty_top (n : str) (attrs : dict) (contents : list node) :
  decompose_if_empty (mark (Tag n attrs contents)) []
  = if str_eqb (text (Tag n attrs contents)) []
    then MTag true n attrs (map mark contents)
    else mark (Tag n attrs contents).
Proof.
  unfold decompose_if_empty. simpl text_at.
  change (flat_map marked_text (map mark contents))
    with (marked_text (mark (Tag n attrs contents))).
  now rewrite marked_text_mark.
Qed.

(** The loop leaves the top-level tag in place and, below it, what
    [decompose_empty_anchors] leaves. *)
Lemma loop_decomposes_empty_anchors (t : node) :
  is_decomposed (fold_left decompose_if_empty (find_all (u "a") t) (mark t)) = false
  /\ unmark (fold_left decompose_if_empty (find_all (u "a") t) (mark t))
     = decompose_empty_anchors t.
Proof.
  induction t as [n attrs contents IH|s] using node_induction; [|now split].
  rewrite find_all_Tag.
  change (mark (Tag n attrs contents)) with (MTag false n attrs (map mark contents)).
  pose proof (fold_paths_below (u "a") n attrs contents []) as E.
  change (length (@nil marked)) with 0 in E.
  change ([] ++ map mark contents) with (map mark contents) in E.
  rewrite E. clear E.
  split; [reflexivity|]. simpl. f_equal. rewrite flat_map_map.
  apply flat_map_ext_Forall. eapply Forall_impl; [|exact IH].
  intros c [Hd Hu]. unfold child_paths, is_empty_anchor.
  destruct (is_tag (u "a") c) eqn:Ea; simpl; [|now rewrite Hd, Hu].
  destruct c as [cn cattrs ccontents|cs]; [|discriminate].
  rewrite decompose_if_empty_top.
  destruct (str_eqb (text (Tag cn cattrs ccontents)) []) eqn:Et.
  - now rewrite fold_decomposed.
  - now rewrite Hd, Hu.
Qed.

Lemma remove_empty_children_Tag (name : str) (attrs : dict) (contents : list node) :
  remove_empty_children (Tag name attrs contents)
  = Ok (decompose_empty_anchors (Tag name attrs contents)).
Proof.
  unfold remove_empty_children. f_equal. apply loop_decomposes_empty_anchors.
Qed.

Lemma sanitize_Tag (name : str) (attrs : dict) (contents : list node) :
  sanitize (Tag name attrs contents)
  = Ok (decompose_empty_anchors (clean_all (Tag name attrs contents))).
Proof.
  unfold sanitize, remove_attributes_from_html_tags, bind.
  change (clean_all (Tag name attrs contents))
    with (Tag name (filter (fun kv => is_allowed (fst kv)) attrs) (map clean_all contents)).
  apply remove_empty_children_Tag.
Qed.

(** [clean_html] on a fragment whose first node is a tag: the resolution
    pass over what the sanitized tag, printed, parses to. *)
Lemma clean_html_Tag (name : str) (attrs : dict) (contents rest : list node) :
  clean_html (Tag name attrs contents :: rest)
  = resolve_relative_resource_urls
      [reparse false (decompose_empty_anchors (clean_all (Tag name attrs contents)))].
Proof.
  unfold clean_html, get_top_level_tag, remove_attributes_from_html_tags, bind.
  change (clean_all (Tag name attrs contents))
    with (Tag name (filter (fun kv => is_allowed (fst kv)) attrs) (map clean_all contents)).
  rewrite remove_empty_children_Tag. reflexivity.
Qed.

(** ** A pass of [update_all] *)

(** A pass returns exactly when [f] returns on every selected tag, and its
    result is the tree with [f]'s results as attributes. *)
Lemma update_all_Ok (name attr : str) (f : dict -> result dict) (t : node) :
  forall t',
    update_all name attr f t = Ok t'
    <-> Forall (returns_on name attr f) (tags t) /\ t' = map_attrs (on_tag name attr f) t.
Proof.
  induction t as [n attrs contents IH|s] using node_induction; intros t'; simpl.
  - pose proof (mapM_Ok (update_all name attr f)
                  (fun c => Forall (returns_on name attr f) (tags c))
                  (map_attrs (on_tag name attr f)) IH) as HM.
    unfold on_tag at 1. unfold returns_on at 1.
    change (str_eqb n name && has_key attr attrs) with (selected name attr (n, attrs)).
    rewrite Forall_cons_iff, Forall_flat_map. simpl.
    destruct (selected name attr (n, attrs)) eqn:Es.
    + destruct (f attrs) as [attrs'|e] eqn:Ef; simpl.
      * destruct (mapM (update_all name attr f) contents) as [cs|e] eqn:Em; simpl.
        -- destruct (proj1 (HM cs) eq_refl) as [Hall ->].
           split.
           ++ intros E; inversion E; subst. eauto.
           ++ intros [_ ->]. reflexivity.
        -- split; [discriminate|]. intros [[_ Hall] _].
           pose proof (proj2 (HM _) (conj Hall eq_refl)). discriminate.
      * split; [discriminate|]. intros [[H _] _].
        destruct (H eq_refl) as [? ?]. discriminate.
    + destruct (mapM (update_all name attr f) contents) as [cs|e] eqn:Em; simpl.
      * destruct (proj1 (HM cs) eq_refl) as [Hall ->].
        split.
        -- intros E; inversion E; subst. split; [split|]; auto. discriminate.
        -- intros [_ ->]. reflexivity.
      * split; [discriminate|]. intros [[_ Hall] _].
        pose proof (proj2 (HM _) (conj Hall eq_refl)). discriminate.
  - split.
    + intros E; inversion E; subst. split; [constructor | reflexivity].
    + intros [_ ->]. reflexivity.
Qed.

Lemma on_tag_cases (name attr : str) (f : dict -> result dict) (n : str) (d : dict) :
  on_tag name attr f n d = d
  \/ (selected name attr (n, d) = true /\ f d = Ok (on_tag name attr f n d)).
Proof.
  unfold on_tag. destruct (selected name attr (n, d)); [|auto].
  destruct (f d); auto.
Qed.

Lemma on_tag_other_name (name attr : str) (f : dict -> result dict) (n : str) (d : dict) :
  str_eqb n name = false -> on_tag name attr f n d = d.
Proof. intros E. unfold on_tag, selected. simpl. now rewrite E. Qed.

Lemma doc_tags_map_attrs (g : str -> dict -> dict) (html : list node) :
  doc_tags (map (map_attrs g) html)
  = map (fun tag => (fst tag, g (fst tag) (snd tag))) (doc_tags html).
Proof.
  unfold doc_tags. rewrite flat_map_map, map_flat_map.
  apply flat_map_ext. intros t. apply tags_map_attrs.
Qed.

Lemma Forall2_map_r {A B} (R : A -> B -> Prop) (h : A -> B) (l : list A) :
  (forall x, In x l -> R x (h x)) -> Forall2 R l (map h l).
Proof.
  induction l as [|x l IH]; simpl; intros H; constructor; auto.
Qed.

(** ** The two updates on one tag *)

Lemma resolve_resource_get (url_attribute : str) (resource : dict) (v : str) :
  get url_attribute resource = Some v ->
  resolve_resource url_attribute resource
  = Ok (if match_protocol v then resource
        else setitem url_attribute (BASE_DICOM_URL ++ v) resource).
Proof.
  intros H. unfold resolve_resource, has_protocol_prefix, getitem. rewrite H. simpl.
  now destruct (match_protocol v).
Qed.

Lemma resolve_resource_returns (name url_attribute : str) (tag : str * dict) :
  returns_on name url_attribute (resolve_resource url_attribute) tag.
Proof.
  unfold returns_on, selected, has_key. intros H. apply andb_true_iff in H as [_ H].
  destruct (get url_attribute (snd tag)) as [v|] eqn:E; [|discriminate].
  rewrite (resolve_resource_get _ _ E). eauto.
Qed.

Lemma update_anchor_href_get (anchor : dict) (href : str) :
  get (u "href") anchor = Some href ->
  update_anchor_href anchor
  = if match_protocol href then Ok anchor
    else href' <- resolve_href_url href ;;
         Ok (setitem (u "target") (u "_blank") (setitem (u "href") href' anchor)).
Proof.
  intros H. unfold update_anchor_href, has_protocol_prefix, getitem. rewrite H. simpl.
  now destruct (match_protocol href).
Qed.

Lemma match_protocol_base_long (s : str) : match_protocol (BASE_DICOM_URL ++ s) = true.
Proof. reflexivity. Qed.

Lemma match_protocol_base_short (s : str) :
  match_protocol (BASE_SHORT_DICOM_SECTION_URL ++ s) = true.
Proof. reflexivity. Qed.

Lemma resolve_href_url_protocol (href url : str) :
  resolve_href_url href = Ok url -> match_protocol url = true.
Proof.
  unfold resolve_href_url. destruct (match_sect_or_chapter href).
  - destruct (get_short_html_location href); simpl; intros E; inversion E.
    apply match_protocol_base_short.
  - destruct (get_long_html_location href); simpl; intros E; inversion E.
    apply match_protocol_base_long.
Qed.

(** ** The resolution pass over a document *)

Lemma resolve_relative_resource_urls_Ok (html html' : list node) :
  resolve_relative_resource_urls html = Ok html'
  <-> Forall (returns_on (u "a") (u "href") update_anchor_href) (doc_tags html)
      /\ html' = map (map_attrs resolved_printed) html.
Proof.
  assert (pass : forall name attr f l l',
             mapM (update_all name attr f) l = Ok l'
             <-> Forall (returns_on name attr f) (doc_tags l)
                 /\ l' = map (map_attrs (on_tag name attr f)) l).
  { intros name attr f l l'. unfold doc_tags. rewrite Forall_flat_map.
    apply mapM_Ok. apply Forall_forall. intros t _ t'. apply update_all_Ok. }
  assert (total : forall name attr l,
             mapM (update_all name attr (resolve_resource attr)) l
             = Ok (map (map_attrs (on_tag name attr (resolve_resource attr))) l)).
  { intros name attr l. apply pass. split; [|reflexivity].
    apply Forall_forall. intros tag _. apply resolve_resource_returns. }
  unfold resolve_relative_resource_urls.
  destruct (mapM (update_all (u "a") (u "href") update_anchor_href) html)
    as [html1|e] eqn:E1; simpl.
  - apply pass in E1 as [H1 ->]. rewrite total. simpl. rewrite total. simpl.
    rewrite !map_map.
    assert (E : map (fun t => sorted_attributes
                       (map_attrs
                          (on_tag (u "object") (u "data") (resolve_resource (u "data")))
                          (map_attrs
                             (on_tag (u "img") (u "src") (resolve_resource (u "src")))
                             (map_attrs (on_tag (u "a") (u "href") update_anchor_href) t))))
                  html
                = map (map_attrs resolved_printed) html).
    { apply map_ext. intros t.
      now rewrite sorted_attributes_map_attrs, !map_attrs_compose. }
    rewrite E. split.
    + intros E'; inversion E'; auto.
    + intros [_ ->]; reflexivity.
  - split; [discriminate|]. intros [H _].
    pose proof (proj2 (pass _ _ _ _ _) (conj H eq_refl)) as E. rewrite E1 in E. discriminate.
Qed.

(** ** The sanitizer *)

(** C4: after the attribute pass over a tag and everything below it, every
    attribute key of every tag of the subtree is one of [href], [src],
    [type], [data], [colspan], [rowspan]. *)
Theorem C4_only_allowed_attributes_remain (name : str) (attrs : dict) (contents : list node) :
  exists t',
    remove_attributes_from_html_tags (Tag name attrs contents) = Ok t'
    /\ Forall (fun tag => Forall (fun kv => In (fst kv) allowed_attributes) (snd tag))
         (tags t').
Proof.
  exists (clean_all (Tag name attrs contents)). split; [reflexivity|].
  rewrite clean_all_map_attrs, tags_map_attrs. apply Forall_map.
  apply Forall_forall. intros tag _. apply keep_allowed_only.
Qed.

(** C5, as the code has it: [remove_empty_children], and so the
    sanitizer, returns the top-level tag it was given, with its name, its
    attributes (those that the attribute pass keeps) and its text, also
    where that tag is an anchor with empty text; and below the top-level
    tag no anchor with empty text remains, at any depth, also where one
    empty anchor held another. *)
Theorem C5_no_empty_anchor_below_top (name : str) (attrs : dict) (contents : list node) :
  (exists contents',
      remove_empty_children (Tag name attrs contents) = Ok (Tag name attrs contents')
      /\ text (Tag name attrs contents') = text (Tag name attrs contents)
      /\ Forall (fun d => is_empty_anchor d = false)
           (descendants (Tag name attrs contents')))
  /\ (exists contents',
         sanitize (Tag name attrs contents)
         = Ok (Tag name (filter (fun kv => is_allowed (fst kv)) attrs) contents')
         /\ text (Tag name (filter (fun kv => is_allowed (fst kv)) attrs) contents')
            = text (Tag name attrs contents)
         /\ Forall (fun d => is_empty_anchor d = false)
              (descendants
                 (Tag name (filter (fun kv => is_allowed (fst kv)) attrs) contents'))).
Proof.
  split.
  - exists (flat_map (fun c => if is_empty_anchor c then [] else [decompose_empty_anchors c])
              contents).
    split; [apply remove_empty_children_Tag|]. split.
    + apply (text_decompose (Tag name attrs contents)).
    + apply (decompose_no_empty_anchor (Tag name attrs contents)).
  - exists (flat_map (fun c => if is_empty_anchor c then [] else [decompose_empty_anchors c])
              (map clean_all contents)).
    split; [apply sanitize_Tag|]. split.
    + rewrite <- (text_map_attrs keep_allowed (Tag name attrs contents)).
      rewrite <- clean_all_map_attrs.
      apply (text_decompose (clean_all (Tag name attrs contents))).
    + apply (decompose_no_empty_anchor (clean_all (Tag name attrs contents))).
Qed.

(** C5 as stated fails: a top-level tag that is an empty anchor is still
    there after sanitization. *)
Lemma C5_empty_top_level_anchor_stays :
  exists t',
    sanitize (Tag (u "a") [(u "id", u "sect_10.1")] []) = Ok t'
    /\ In (Tag (u "a") [] []) (t' :: descendants t')
    /\ is_empty_anchor (Tag (u "a") [] []) = true.
Proof.
  exists (Tag (u "a") [] []). split; [reflexivity|]. split; [now left | reflexivity].
Qed.

(** ** Resources and protocol prefixes *)

Lemma on_tag_preserves (name attr : str) (f : dict -> result dict) (n : str) (d : dict)
      (k v : str) :
  (forall d', f d = Ok d' -> get k d' = Some v) ->
  get k d = Some v ->
  get k (on_tag name attr f n d) = Some v.
Proof.
  intros Hf H. destruct (on_tag_cases name attr f n d) as [E|[_ E]].
  - now rewrite E.
  - now apply Hf.
Qed.

Lemma resolve_resource_preserves (url_attribute : str) (d d' : dict) (k v : str) :
  get k d = Some v -> match_protocol v = true ->
  resolve_resource url_attribute d = Ok d' -> get k d' = Some v.
Proof.
  intros H Hv. unfold resolve_resource, has_protocol_prefix, getitem.
  destruct (get url_attribute d) as [w|] eqn:Ew; simpl; [|discriminate].
  destruct (match_protocol w) eqn:Hw; simpl; intros E; inversion E; subst; [assumption|].
  destruct (str_eqb k url_attribute) eqn:Ek.
  - apply str_eqb_eq in Ek. subst k. congruence.
  - apply str_eqb_neq in Ek. now rewrite get_setitem_other.
Qed.

Lemma update_anchor_href_preserves (d d' : dict) (k v : str) :
  k <> u "target" ->
  get k d = Some v -> match_protocol v = true ->
  update_anchor_href d = Ok d' -> get k d' = Some v.
Proof.
  intros Hk H Hv. unfold update_anchor_href, has_protocol_prefix, getitem.
  destruct (get (u "href") d) as [w|] eqn:Ew; simpl; [|discriminate].
  destruct (match_protocol w) eqn:Hw; simpl; [intros E; inversion E; now subst|].
  destruct (resolve_href_url w) as [w'|e]; simpl; intros E; inversion E; subst.
  rewrite get_setitem_other by assumption.
  destruct (str_eqb k (u "href")) eqn:Ek.
  - apply str_eqb_eq in Ek. subst k. congruence.
  - apply str_eqb_neq in Ek. now rewrite get_setitem_other.
Qed.

(** C2, as the code has it: [resolve_resource] sets an image [src] or an
    object [data] to the long-form base URL followed by the original value
    when that value does not start with [http] or [ftp], and leaves it as it
    is when it does; so do the images and objects of a document that
    [resolve_relative_resource_urls] goes over. *)
Theorem C2_resources_resolved_unless_protocol :
  (forall (url_attribute : str) (resource : dict) (v : str),
      get url_attribute resource = Some v ->
      exists resource',
        resolve_resource url_attribute resource = Ok resource'
        /\ get url_attribute resource'
           = Some (if match_protocol v then v else BASE_DICOM_URL ++ v))
  /\ (forall html html' : list node,
         resolve_relative_resource_urls html = Ok html' ->
         Forall2
           (fun tag tag' =>
              fst tag' = fst tag
              /\ forall attr v,
                  (fst tag = u "img" /\ attr = u "src")
                  \/ (fst tag = u "object" /\ attr = u "data") ->
                  get attr (snd tag) = Some v ->
                  get attr (snd tag')
                  = Some (if match_protocol v then v else BASE_DICOM_URL ++ v))
           (doc_tags html) (doc_tags html')).
Proof.
  assert (one : forall url_attribute resource v,
             get url_attribute resource = Some v ->
             get url_attribute
               (if match_protocol v then resource
                else setitem url_attribute (BASE_DICOM_URL ++ v) resource)
             = Some (if match_protocol v then v else BASE_DICOM_URL ++ v)).
  { intros a d v H. destruct (match_protocol v); [assumption | apply get_setitem_same]. }
  split.
  - intros a d v H. rewrite (resolve_resource_get _ _ H). eauto.
  - intros html html' H. apply resolve_relative_resource_urls_Ok in H as [_ ->].
    rewrite doc_tags_map_attrs. apply Forall2_map_r.
    intros [n d] _. simpl. split; [reflexivity|].
    intros attr v [[-> ->]|[-> ->]] H; unfold resolved_printed;
      rewrite get_sorted_items; unfold resolved.
    + rewrite (on_tag_other_name (u "a")) by reflexivity.
      rewrite (on_tag_other_name (u "object")) by reflexivity.
      unfold on_tag, selected, has_key. simpl fst. simpl snd. rewrite H.
      rewrite (resolve_resource_get _ _ H). now apply one.
    + rewrite (on_tag_other_name (u "a")) by reflexivity.
      rewrite (on_tag_other_name (u "img")) by reflexivity.
      unfold on_tag, selected, has_key. simpl fst. simpl snd. rewrite H.
      rewrite (resolve_resource_get _ _ H). now apply one.
Qed.

(** C2 as stated fails: an image [src] that starts with [http] is left as
    it is, not prefixed with the long-form base URL. *)
Lemma C2_absolute_src_not_prefixed :
  let img := [(u "src", u "http://example.org/figure.png")] in
  resolve_resource (u "src") img = Ok img
  /\ resolve_relative_resource_urls [Tag (u "img") img []] = Ok [Tag (u "img") img []]
  /\ str_eqb (u "http://example.org/figure.png")
       (BASE_DICOM_URL ++ u "http://example.org/figure.png") = false.
Proof. repeat split; reflexivity. Qed.

(** C6: a [href], [src] or [data] value that starts with [http] or [ftp] is
    left unchanged: by [update_anchor_href], by [resolve_resource], and in
    every tag of a document that [resolve_relative_resource_urls] goes
    over. *)
Theorem C6_protocol_prefixed_references_unchanged :
  (forall (anchor : dict) (v : str),
      get (u "href") anchor = Some v -> match_protocol v = true ->
      update_anchor_href anchor = Ok anchor)
  /\ (forall (url_attribute : str) (resource : dict) (v : str),
         get url_attribute resource = Some v -> match_protocol v = true ->
         resolve_resource url_attribute resource = Ok resource)
  /\ (forall html html' : list node,
         resolve_relative_resource_urls html = Ok html' ->
         Forall2
           (fun tag tag' =>
              fst tag' = fst tag
              /\ forall k v,
                  In k [u "href"; u "src"; u "data"] ->
                  get k (snd tag) = Some v -> match_protocol v = true ->
                  get k (snd tag') = Some v)
           (doc_tags html) (doc_tags html')).
Proof.
  split; [|split].
  - intros anchor v H Hv. rewrite (update_anchor_href_get _ H). now rewrite Hv.
  - intros a d v H Hv. rewrite (resolve_resource_get _ _ H). now rewrite Hv.
  - intros html html' H. apply resolve_relative_resource_urls_Ok in H as [_ ->].
    rewrite doc_tags_map_attrs. apply Forall2_map_r.
    intros [n d] _. simpl. split; [reflexivity|].
    intros k v Hk H Hv. unfold resolved_printed. rewrite get_sorted_items.
    unfold resolved.
    assert (k <> u "target") as Hk'.
    { intros ->. simpl in Hk. repeat (destruct Hk as [Hk|Hk]; [discriminate|]). exact Hk. }
    assert (get k (on_tag (u "a") (u "href") update_anchor_href n d) = Some v) as H1.
    { apply on_tag_preserves; [|assumption].
      intros d'. now apply update_anchor_href_preserves. }
    assert (get k (on_tag (u "img") (u "src") (resolve_resource (u "src")) n
                     (on_tag (u "a") (u "href") update_anchor_href n d)) = Some v) as H2.
    { apply on_tag_preserves; [|assumption].
      intros d'. now apply resolve_resource_preserves. }
    apply on_tag_preserves; [|assumption].
    intros d'. now apply resolve_resource_preserves.
Qed.

(** ** Cleaning twice *)

Lemma on_tag_fixed (name attr : str) (f : dict -> result dict) (n : str) (d : dict) :
  (selected name attr (n, d) = true -> f d = Ok d) -> on_tag name attr f n d = d.
Proof.
  intros H. unfold on_tag. destruct (selected name attr (n, d)); [|reflexivity].
  now rewrite H.
Qed.

Lemma selected_inv (name attr n : str) (d : dict) :
  selected name attr (n, d) = true -> n = name /\ exists v, get attr d = Some v.
Proof.
  unfold selected, has_key. simpl. intros H. apply andb_true_iff in H as [H1 H2].
  apply str_eqb_eq in H1. split; [assumption|].
  destruct (get attr d) as [v|]; [eauto | discriminate].
Qed.

(** Where every reference is absolute the three passes change nothing. *)
Lemma absolute_fixed (n : str) (d : dict) : absolute n d -> resolved n d = d.
Proof.
  intros H. unfold resolved.
  rewrite (on_tag_fixed (u "a")), (on_tag_fixed (u "img")), (on_tag_fixed (u "object"));
    try reflexivity.
  - intros Hs. apply selected_inv in Hs as [-> [v Hv]].
    rewrite (resolve_resource_get _ _ Hv). rewrite (H (u "data") v); auto.
  - intros Hs. apply selected_inv in Hs as [-> [v Hv]].
    rewrite (resolve_resource_get _ _ Hv). rewrite (H (u "src") v); auto.
  - intros Hs. apply selected_inv in Hs as [-> [v Hv]].
    rewrite (update_anchor_href_get _ Hv). rewrite (H (u "href") v); auto.
Qed.

Lemma absolute_returns (n : str) (d : dict) :
  absolute n d -> returns_on (u "a") (u "href") update_anchor_href (n, d).
Proof.
  intros H Hs. apply selected_inv in Hs as [-> [v Hv]]. simpl.
  rewrite (update_anchor_href_get _ Hv). rewrite (H (u "href") v); eauto.
Qed.

(** After the three passes every reference is absolute. *)
Lemma resolved_absolute (n : str) (d : dict) :
  returns_on (u "a") (u "href") update_anchor_href (n, d) -> absolute n (resolved n d).
Proof.
  intros Hr k v [[-> ->]|[[-> ->]|[-> ->]]]; unfold resolved.
  - rewrite (on_tag_other_name (u "object")) by reflexivity.
    rewrite (on_tag_other_name (u "img")) by reflexivity.
    unfold on_tag. destruct (selected (u "a") (u "href") (u "a", d)) eqn:Es.
    + destruct (Hr Es) as [d' Hd']. simpl in Hd'. rewrite Hd'.
      apply selected_inv in Es as [_ [w Hw]].
      rewrite (update_anchor_href_get _ Hw) in Hd'.
      destruct (match_protocol w) eqn:Ew.
      * inversion Hd'; subst. congruence.
      * destruct (resolve_href_url w) as [w'|e] eqn:Er; simpl in Hd'; [|discriminate].
        inversion Hd'; subst.
        rewrite get_setitem_other by discriminate. rewrite get_setitem_same.
        intros E; inversion E; subst. eapply resolve_href_url_protocol; eauto.
    + unfold selected, has_key in Es. simpl in Es.
      destruct (get (u "href") d); [discriminate|]. discriminate.
  - rewrite (on_tag_other_name (u "object")) by reflexivity.
    rewrite (on_tag_other_name (u "a")) by reflexivity.
    unfold on_tag, selected, has_key. simpl fst. simpl snd.
    destruct (get (u "src") d) as [w|] eqn:Hw; simpl; [|congruence].
    rewrite (resolve_resource_get _ _ Hw).
    destruct (match_protocol w) eqn:Ew; [congruence|].
    rewrite get_setitem_same. intros E; inversion E. apply match_protocol_base_long.
  - rewrite (on_tag_other_name (u "img")) by reflexivity.
    rewrite (on_tag_other_name (u "a")) by reflexivity.
    unfold on_tag, selected, has_key. simpl fst. simpl snd.
    destruct (get (u "data") d) as [w|] eqn:Hw; simpl; [|congruence].
    rewrite (resolve_resource_get _ _ Hw).
    destruct (match_protocol w) eqn:Ew; [congruence|].
    rewrite get_setitem_same. intros E; inversion E. apply match_protocol_base_long.
Qed.

Lemma keep_allowed_absolute (n : str) (d : dict) :
  absolute n d -> absolute n (keep_allowed n d).
Proof.
  intros H k v Hk. rewrite get_keep_allowed.
  destruct (is_allowed k); [now apply H | discriminate].
Qed.

Lemma sorted_items_absolute (n : str) (d : dict) :
  absolute n d -> absolute n (sorted_items d).
Proof. intros H k v Hk. rewrite get_sorted_items. now apply H. Qed.

Lemma resolved_printed_absolute (n : str) (d : dict) :
  returns_on (u "a") (u "href") update_anchor_href (n, d) ->
  absolute n (resolved_printed n d).
Proof. intros H. now apply sorted_items_absolute, resolved_absolute. Qed.

Lemma keep_allowed_sorted (n : str) (d : dict) :
  sorted_items (keep_allowed n (sorted_items d)) = keep_allowed n (sorted_items d).
Proof. unfold keep_allowed. now rewrite sorted_items_filter, sorted_items_idempotent. Qed.

Lemma doc_tags_single (t : node) : doc_tags [t] = tags t.
Proof. unfold doc_tags. simpl. apply app_nil_r. Qed.

(** Where every reference is absolute and the attributes are in order the
    resolution pass returns the document as it is. *)
Lemma absolute_document_fixed (html : list node) :
  Forall (fun tag => absolute (fst tag) (snd tag) /\ sorted_items (snd tag) = snd tag)
    (doc_tags html) ->
  resolve_relative_resource_urls html = Ok html.
Proof.
  intros H. apply resolve_relative_resource_urls_Ok. split.
  - eapply Forall_impl; [|exact H]. intros [n d] [Hd _]. now apply absolute_returns.
  - rewrite <- (map_id html) at 1. apply map_ext_Forall.
    unfold doc_tags in H. apply (proj1 (Forall_flat_map _ html tags)) in H.
    eapply Forall_impl; [|exact H]. intros t Ht. simpl in Ht.
    symmetry. apply map_attrs_id.
    eapply Forall_impl; [|exact Ht]. intros [n d] [Hd Hs]. simpl.
    unfold resolved_printed. now rewrite absolute_fixed.
Qed.

Lemma clean_html_Ok_inv (html out : list node) :
  clean_html html = Ok out ->
  exists name attrs contents rest, html = Tag name attrs contents :: rest.
Proof.
  destruct html as [|[name attrs contents|s] rest]; simpl; try discriminate.
  intros _. eauto.
Qed.

(** What [clean_html] returns: the top-level tag with its attributes
    filtered and the empty anchors below it taken out, as it is parsed
    from its text, with the references resolved and the attributes in
    order. *)
Lemma clean_html_inv (html out : list node) :
  clean_html html = Ok out ->
  exists name attrs contents rest,
    html = Tag name attrs contents :: rest
    /\ Forall (returns_on (u "a") (u "href") update_anchor_href)
         (tags (reparse false
                  (decompose_empty_anchors (clean_all (Tag name attrs contents)))))
    /\ out = [map_attrs resolved_printed
                (reparse false
                   (decompose_empty_anchors (clean_all (Tag name attrs contents))))].
Proof.
  intros H. destruct (clean_html_Ok_inv _ H) as (name & attrs & contents & rest & ->).
  rewrite clean_html_Tag in H.
  apply resolve_relative_resource_urls_Ok in H as [Hr ->].
  rewrite doc_tags_single in Hr.
  exists name, attrs, contents, rest. auto.
Qed.

(** What [clean_html] returns is as the parser gives it: printing it and
    parsing the text gives it back. *)
Lemma clean_html_printed (html out : list node) :
  clean_html html = Ok out -> printed out = out.
Proof.
  intros H. apply clean_html_inv in H as (name & attrs & contents & rest & -> & _ & ->).
  remember (decompose_empty_anchors (clean_all (Tag name attrs contents))) as t2 eqn:Et2.
  assert (Htag : exists n a cs, map_attrs resolved_printed (reparse false t2) = Tag n a cs).
  { rewrite Et2. simpl. eauto. }
  destruct Htag as (n & a & cs & Etag). rewrite Etag, printed_Tag, <- Etag. f_equal.
  rewrite reparse_map_attrs. apply map_attrs_ext. apply Forall_forall.
  intros [n' d] _. simpl. apply sorted_items_idempotent.
Qed.

(** Cleaning the output of [clean_html] again only filters the attributes
    again. *)
Lemma clean_html_again (html out : list node) :
  clean_html html = Ok out -> clean_html out = Ok (map clean_all out).
Proof.
  intros H. apply clean_html_inv in H as (name & attrs & contents & rest & -> & Hr & ->).
  remember (decompose_empty_anchors (clean_all (Tag name attrs contents))) as t2 eqn:Et2.
  set (out := map_attrs resolved_printed (reparse false t2)).
  assert (Hfix : decompose_empty_anchors (clean_all out) = clean_all out).
  { apply decompose_fixed. rewrite clean_all_map_attrs.
    do 2 apply no_empty_anchor_map_attrs. apply no_empty_anchor_reparse.
    rewrite Et2. apply decompose_no_empty_anchor. }
  assert (Hrep : reparse false (clean_all out) = clean_all out).
  { unfold out. rewrite clean_all_map_attrs, map_attrs_compose, reparse_map_attrs.
    apply map_attrs_ext. apply Forall_forall. intros [n d] _. simpl.
    apply keep_allowed_sorted. }
  assert (Habs : Forall (fun tag => absolute (fst tag) (snd tag)
                                    /\ sorted_items (snd tag) = snd tag)
                   (tags (clean_all out))).
  { unfold out. rewrite clean_all_map_attrs, !tags_map_attrs, map_map. apply Forall_map.
    eapply Forall_impl; [|exact Hr]. intros [n d] Hd. simpl. split.
    - now apply keep_allowed_absolute, resolved_printed_absolute.
    - apply keep_allowed_sorted. }
  simpl map.
  assert (Htag : exists n a cs, out = Tag n a cs).
  { unfold out. rewrite Et2. simpl. eauto. }
  destruct Htag as (n & a & cs & Etag). rewrite Etag, clean_html_Tag, <- Etag, Hfix, Hrep.
  apply absolute_document_fixed. now rewrite doc_tags_single.
Qed.

Lemma clean_all_idempotent (t : node) : clean_all (clean_all t) = clean_all t.
Proof.
  rewrite !clean_all_map_attrs, map_attrs_compose. apply map_attrs_ext.
  apply Forall_forall. intros [n d] _. simpl.
  apply keep_allowed_id, keep_allowed_only.
Qed.

(** C3, as the code has it: cleaning the output of [clean_html] again
    returns that output with the attributes outside the allow-list filtered
    out (the [target] that [update_anchor_href] set on the anchors it
    rewrote); that result is a fixed point of [clean_html]; and where the
    first output has allow-listed attributes only, the second is equal to
    it. *)
Theorem C3_clean_html_stable_after_second_pass (html out : list node) :
  clean_html html = Ok out ->
  clean_html out = Ok (map clean_all out)
  /\ clean_html (map clean_all out) = Ok (map clean_all out)
  /\ (Forall (fun tag => Forall (fun kv => In (fst kv) allowed_attributes) (snd tag))
        (doc_tags out) ->
      clean_html out = Ok out).
Proof.
  intros H. pose proof (clean_html_again _ H) as H2. split; [assumption|]. split.
  - rewrite (clean_html_again _ H2). f_equal. rewrite map_map.
    apply map_ext. intros t. apply clean_all_idempotent.
  - intros Hall. rewrite H2. f_equal. rewrite <- (map_id out) at 2.
    apply map_ext_Forall. unfold doc_tags in Hall.
    apply (proj1 (Forall_flat_map _ out tags)) in Hall.
    eapply Forall_impl; [|exact Hall]. intros t Ht. simpl in Ht.
    rewrite clean_all_map_attrs. apply map_attrs_id.
    eapply Forall_impl; [|exact Ht]. intros [n d] Hd. now apply keep_allowed_id.
Qed.

(** The anchor of [Sample.relative_anchor], cleaned once, is cleaned again. *)
Lemma C3_clean_html_stable_after_second_pass_witness :
  clean_html Sample.cleaned_once = Ok (map clean_all Sample.cleaned_once)
  /\ clean_html (map clean_all Sample.cleaned_once) = Ok (map clean_all Sample.cleaned_once)
  /\ (Forall (fun tag => Forall (fun kv => In (fst kv) allowed_attributes) (snd tag))
        (doc_tags Sample.cleaned_once) ->
      clean_html Sample.cleaned_once = Ok Sample.cleaned_once).
Proof.
  apply (C3_clean_html_stable_after_second_pass Sample.relative_anchor). reflexivity.
Defined.

(** C3 as stated fails: cleaning an anchor with a relative reference sets
    its [target], and cleaning the output again filters the [target] out. *)
Lemma C3_clean_html_not_idempotent :
  clean_html Sample.relative_anchor = Ok Sample.cleaned_once
  /\ clean_html Sample.cleaned_once = Ok Sample.cleaned_twice
  /\ Sample.cleaned_once <> Sample.cleaned_twice.
Proof. split; [reflexivity | split; [reflexivity | discriminate]]. Qed.

(** ** References the resolver cannot split *)

Lemma unpack2_Raise {A} (parts : list A) (e : exn) :
  unpack2 parts = Raise e -> e = ValueError.
Proof. destruct parts as [|a [|b [|c l]]]; simpl; congruence. Qed.

Lemma resolve_href_url_Raise (href : str) (e : exn) :
  resolve_href_url href = Raise e -> e = ValueError.
Proof.
  unfold resolve_href_url, get_short_html_location, get_long_html_location.
  destruct (unpack2 (split (u "#") href)) as [[page sect]|e'] eqn:E1; simpl.
  - destruct (match_sect_or_chapter href); simpl; [|discriminate].
    destruct (unpack2 (split (u ".html") (if str_eqb page [] then u "part03.html" else page)))
      as [[c x]|e''] eqn:E2; simpl; [discriminate|].
    intros E; inversion E; subst. eapply unpack2_Raise; eauto.
  - destruct (match_sect_or_chapter href); simpl;
      intros E; inversion E; subst; eapply unpack2_Raise; eauto.
Qed.

Lemma resolve_href_url_hash (href : str) :
  count hash href <> 1 -> resolve_href_url href = Raise ValueError.
Proof.
  intros H.
  assert (E : unpack2 (split (u "#") href) = Raise ValueError).
  { apply unpack2_length. change (u "#") with [hash]. rewrite split_char_length. lia. }
  unfold resolve_href_url, get_short_html_location, get_long_html_location.
  rewrite E. simpl. now destruct (match_sect_or_chapter href).
Qed.

Lemma update_anchor_href_Raise (anchor : dict) (e : exn) :
  has_key (u "href") anchor = true -> update_anchor_href anchor = Raise e -> e = ValueError.
Proof.
  unfold has_key. destruct (get (u "href") anchor) as [v|] eqn:Hv; [|discriminate].
  intros _. rewrite (update_anchor_href_get _ Hv).
  destruct (match_protocol v); [discriminate|].
  destruct (resolve_href_url v) as [w|e'] eqn:E; simpl; [discriminate|].
  intros E'; inversion E'; subst. eapply resolve_href_url_Raise; eauto.
Qed.

Lemma mapM_Raise {A B} (f : A -> result B) (e0 : exn) (l : list A) :
  Forall (fun x => forall e, f x = Raise e -> e = e0) l ->
  forall e, mapM f l = Raise e -> e = e0.
Proof.
  induction 1 as [|x l Hx _ IH]; simpl; intros e; [discriminate|].
  destruct (f x) as [y|e'] eqn:Ey; simpl.
  - destruct (mapM f l) as [ys|e''] eqn:Eys; simpl; [discriminate|].
    intros E; inversion E; subst. now apply IH.
  - intros E; inversion E; subst. now apply Hx.
Qed.

(** A pass raises what [f] raises on the tags it selects. *)
Lemma update_all_Raise (name attr : str) (f : dict -> result dict) (e0 : exn) :
  (forall d e, has_key attr d = true -> f d = Raise e -> e = e0) ->
  forall t e, update_all name attr f t = Raise e -> e = e0.
Proof.
  intros Hf t.
  induction t as [n attrs contents IH|s] using node_induction; intros e; simpl;
    [|discriminate].
  destruct (str_eqb n name && has_key attr attrs) eqn:Es.
  - apply andb_true_iff in Es as [_ Hk].
    destruct (f attrs) as [attrs'|e'] eqn:Ef; simpl.
    + destruct (mapM (update_all name attr f) contents) as [cs|e''] eqn:Em; simpl;
        [discriminate|].
      intros E; inversion E; subst. eapply mapM_Raise; eauto.
    + intros E; inversion E; subst. eapply Hf; eauto.
  - simpl. destruct (mapM (update_all name attr f) contents) as [cs|e''] eqn:Em; simpl;
      [discriminate|].
    intros E; inversion E; subst. eapply mapM_Raise; eauto.
Qed.

(** The resolution pass raises nothing but the [ValueError] of
    [resolve_href_url]. *)
Lemma resolve_relative_resource_urls_Raise (html : list node) (e : exn) :
  resolve_relative_resource_urls html = Raise e -> e = ValueError.
Proof.
  intros H.
  destruct (mapM (update_all (u "a") (u "href") update_anchor_href) html)
    as [html1|e1] eqn:E1.
  - assert (Hr : Forall (returns_on (u "a") (u "href") update_anchor_href) (doc_tags html)).
    { unfold doc_tags. rewrite Forall_flat_map.
      apply (proj1 (mapM_Ok (update_all (u "a") (u "href") update_anchor_href)
                      (fun c => Forall (returns_on (u "a") (u "href") update_anchor_href)
                                  (tags c))
                      (map_attrs (on_tag (u "a") (u "href") update_anchor_href))
                      (proj2 (Forall_forall _ html) (fun t _ t' => update_all_Ok _ _ _ t t'))
                      html1) E1). }
    pose proof (proj2 (resolve_relative_resource_urls_Ok html _) (conj Hr eq_refl)) as E.
    rewrite E in H. discriminate.
  - unfold resolve_relative_resource_urls in H. rewrite E1 in H. simpl in H.
    injection H as <-.
    eapply mapM_Raise; [|exact E1]. apply Forall_forall. intros t _ e'.
    apply update_all_Raise. intros d e''. apply update_anchor_href_Raise.
Qed.

(** The sanitized tag [t2], printed and parsed, goes through the
    resolution pass exactly when [update_anchor_href] returns on every
    anchor of [t2] that has an [href]. *)
Lemma resolution_returns (t2 : node) :
  (exists out, resolve_relative_resource_urls [reparse false t2] = Ok out)
  <-> forall anchor href,
      In (u "a", anchor) (tags t2) -> get (u "href") anchor = Some href ->
      match_protocol href = true \/ exists url, resolve_href_url href = Ok url.
Proof.
  split.
  - intros [out E] anchor href Hin Hget.
    apply resolve_relative_resource_urls_Ok in E as [Hall _].
    rewrite doc_tags_single, tags_reparse in Hall.
    rewrite Forall_map, Forall_forall in Hall.
    specialize (Hall _ Hin). simpl in Hall.
    assert (Hget' : get (u "href") (sorted_items anchor) = Some href)
      by now rewrite get_sorted_items.
    destruct Hall as [d' Hd'].
    { unfold selected, has_key. simpl. now rewrite Hget'. }
    simpl in Hd'. rewrite (update_anchor_href_get _ Hget') in Hd'.
    destruct (match_protocol href); [now left|]. right.
    destruct (resolve_href_url href) as [url|e]; [eauto | discriminate].
  - intros H. eexists. apply resolve_relative_resource_urls_Ok. split; [|reflexivity].
    rewrite doc_tags_single, tags_reparse. apply Forall_map.
    apply Forall_forall. intros [n d] Hin Hs. simpl in *.
    apply selected_inv in Hs as [-> [v Hv]].
    rewrite (update_anchor_href_get _ Hv). rewrite get_sorted_items in Hv.
    destruct (H d v Hin Hv) as [Hp|[url Hu]].
    + rewrite Hp. eauto.
    + destruct (match_protocol v); [eauto|]. rewrite Hu. simpl. eauto.
Qed.

(** C10, as the code has it: [resolve_href_url] raises [ValueError] on
    every reference that does not contain exactly one [#], and [clean_html]
    raises it on every fragment in whose first top-level tag, once
    sanitized, an anchor is left whose [href] is such a reference and does
    not start with [http] or [ftp].  Nothing else decides whether
    [clean_html] returns: it returns exactly when the first top-level node
    is a tag that the sanitizer takes and every [href] of an anchor that
    the sanitizer leaves in it starts with [http] or [ftp] or is one that
    [resolve_href_url] resolves.  An anchor that the sanitizer removes, and
    an anchor in a later top-level node, are not among these. *)
Theorem C10_unsplittable_reference_raises :
  (forall href : str, count hash href <> 1 -> resolve_href_url href = Raise ValueError)
  /\ (forall (top t2 : node) (rest : list node) (anchor : dict) (href : str),
         sanitize top = Ok t2 ->
         In (u "a", anchor) (tags t2) ->
         get (u "href") anchor = Some href ->
         match_protocol href = false ->
         count hash href <> 1 ->
         clean_html (top :: rest) = Raise ValueError)
  /\ (forall html : list node,
         (exists out, clean_html html = Ok out)
         <-> exists top rest t2,
             html = top :: rest
             /\ sanitize top = Ok t2
             /\ forall anchor href,
                 In (u "a", anchor) (tags t2) ->
                 get (u "href") anchor = Some href ->
                 match_protocol href = true
                 \/ exists url, resolve_href_url href = Ok url).
Proof.
  split; [exact resolve_href_url_hash|]. split.
  - intros top t2 rest anchor href Hs Hin Hget Hp Hc.
    destruct top as [name attrs contents|s]; [|discriminate].
    rewrite clean_html_Tag.
    rewrite sanitize_Tag in Hs.
    remember (decompose_empty_anchors (clean_all (Tag name attrs contents))) as t eqn:Et.
    injection Hs as ->. clear Et.
    destruct (resolve_relative_resource_urls [reparse false t2]) as [out|e] eqn:E.
    + destruct (proj1 (resolution_returns t2) (ex_intro _ out E) anchor href Hin Hget)
        as [Hp'|[url Hu]].
      * congruence.
      * rewrite (resolve_href_url_hash _ Hc) in Hu. discriminate.
    + f_equal. eapply resolve_relative_resource_urls_Raise; eauto.
  - intros html. split.
    + intros [out E].
      destruct (clean_html_Ok_inv _ E) as (name & attrs & contents & rest & ->).
      exists (Tag name attrs contents), rest,
        (decompose_empty_anchors (clean_all (Tag name attrs contents))).
      split; [reflexivity|]. split; [apply sanitize_Tag|].
      apply resolution_returns. exists out. now rewrite <- clean_html_Tag with (rest := rest).
    + intros (top & rest & t2 & -> & Hs & H).
      destruct top as [name attrs contents|s]; [|discriminate].
      rewrite clean_html_Tag.
      rewrite sanitize_Tag in Hs.
      remember (decompose_empty_anchors (clean_all (Tag name attrs contents))) as t eqn:Et.
      injection Hs as ->. now apply resolution_returns.
Qed.

(** A table cell whose anchor refers to [figure.html], and a paragraph
    whose anchor the sanitizer removes. *)
Lemma C10_unsplittable_reference_raises_witness :
  resolve_href_url (u "figure.html") = Raise ValueError
  /\ clean_html Sample.cell_with_bad_reference = Raise ValueError
  /\ exists out, clean_html Sample.empty_anchor_paragraph = Ok out.
Proof.
  split; [|split].
  - apply (proj1 C10_unsplittable_reference_raises). vm_compute. discriminate.
  - unfold Sample.cell_with_bad_reference.
    eapply (proj1 (proj2 C10_unsplittable_reference_raises)) with
      (anchor := [(u "href", u "figure.html")]) (href := u "figure.html").
    + reflexivity.
    + simpl. right. left. reflexivity.
    + reflexivity.
    + reflexivity.
    + vm_compute. discriminate.
  - apply (proj2 (proj2 C10_unsplittable_reference_raises)).
    exists (Tag (u "p") [] [Tag (u "a") [(u "href", u "figure.html")] []]), [],
      (Tag (u "p") [] []).
    split; [reflexivity|]. split; [reflexivity|].
    intros anchor href Hin. vm_compute in Hin. destruct Hin as [Hin|[]]. discriminate Hin.
Defined.

(** C10 as stated fails: an anchor without text is removed before the
    references are resolved, and only the first top-level tag of a
    fragment is cleaned; so a fragment that contains an anchor whose
    [href] has no [#] and no protocol, without text or after the first
    top-level tag, is cleaned without an exception. *)
Lemma C10_unsplittable_anchor_outside_the_cleaned_tag :
  match_protocol (u "figure.html") = false
  /\ count hash (u "figure.html") = 0
  /\ In (u "a", [(u "href", u "figure.html")]) (doc_tags Sample.empty_anchor_paragraph)
  /\ clean_html Sample.empty_anchor_paragraph = Ok [Tag (u "p") [] []]
  /\ In (u "a", [(u "href", u "figure.html")]) (doc_tags Sample.anchor_after_paragraph)
  /\ clean_html Sample.anchor_after_paragraph
     = Ok [Tag (u "p") [] [NavigableString (u "See the figure.")]].
Proof.
  split; [reflexivity|]. split; [reflexivity|]. split; [simpl; right; left; reflexivity|].
  split; [reflexivity|]. split; [simpl; right; left; reflexivity | reflexivity].
Qed.

(** ** Worked instances *)

(** A relative image [src], and the tags of [Sample.figures]. *)
Lemma C2_resources_resolved_unless_protocol_witness :
  (exists resource',
      resolve_resource (u "src") [(u "src", u "figures/PS3.3_C.7-1.svg")] = Ok resource'
      /\ get (u "src") resource' = Some (BASE_DICOM_URL ++ u "figures/PS3.3_C.7-1.svg"))
  /\ Forall2
       (fun tag tag' =>
          fst tag' = fst tag
          /\ forall attr v,
              (fst tag = u "img" /\ attr = u "src")
              \/ (fst tag = u "object" /\ attr = u "data") ->
              get attr (snd tag) = Some v ->
              get attr (snd tag')
              = Some (if match_protocol v then v else BASE_DICOM_URL ++ v))
       (doc_tags Sample.figures) (doc_tags Sample.figures_resolved).
Proof.
  split.
  - apply (proj1 C2_resources_resolved_unless_protocol
             (u "src") [(u "src", u "figures/PS3.3_C.7-1.svg")] (u "figures/PS3.3_C.7-1.svg")).
    reflexivity.
  - apply (proj2 C2_resources_resolved_unless_protocol Sample.figures Sample.figures_resolved).
    reflexivity.
Defined.

(** An [http] anchor, an [ftp] object, and the tags of [Sample.figures]. *)
Lemma C6_protocol_prefixed_references_unchanged_witness :
  update_anchor_href [(u "href", u "http://dicom.nema.org/")]
  = Ok [(u "href", u "http://dicom.nema.org/")]
  /\ resolve_resource (u "data") [(u "data", u "ftp://medical.nema.org/eq.svg")]
     = Ok [(u "data", u "ftp://medical.nema.org/eq.svg")]
  /\ Forall2
       (fun tag tag' =>
          fst tag' = fst tag
          /\ forall k v,
              In k [u "href"; u "src"; u "data"] ->
              get k (snd tag) = Some v -> match_protocol v = true ->
              get k (snd tag') = Some v)
       (doc_tags Sample.figures) (doc_tags Sample.figures_resolved).
Proof.
  split; [|split].
  - apply (proj1 C6_protocol_prefixed_references_unchanged
             [(u "href", u "http://dicom.nema.org/")] (u "http://dicom.nema.org/"));
      reflexivity.
  - apply (proj1 (proj2 C6_protocol_prefixed_references_unchanged)
             (u "data") [(u "data", u "ftp://medical.nema.org/eq.svg")]
             (u "ftp://medical.nema.org/eq.svg")); reflexivity.
  - apply (proj2 (proj2 C6_protocol_prefixed_references_unchanged)
             Sample.figures Sample.figures_resolved).
    reflexivity.
Defined.

(** The section [sect_C.7.6.3] and the table under its heading. *)
Lemma C9_no_1_component_fallback_witness :
  get_standard_page (u "sect_C.7.6.3") = u "sect_C.7.6.3"
  /\ table_parent_page Sample.table_C_7_11a = Ok (u "sect_C.7.6.3").
Proof.
  assert (H : ~ In (u "1") (split (u ".") (u "sect_C.7.6.3"))).
  { vm_compute. intros H. repeat (destruct H as [H|H]; [discriminate|]). exact H. }
  split.
  - apply (proj1 C9_no_1_component_fallback). exact H.
  - eapply (proj2 C9_no_1_component_fallback); try reflexivity. exact H.
Defined.

(** * Further properties *)

(** ** Splitting on one character and joining again *)

Lemma split_go_char_cur (c : char) (s : str) :
  forall cur,
    split_go [c] 0 cur s
    = match split_go [c] 0 [] s with
      | p :: ps => (rev cur ++ p) :: ps
      | [] => [rev cur]
      end.
Proof.
  induction s as [|x s IH]; intros cur; simpl.
  - now rewrite app_nil_r.
  - destruct (N.eqb c x); simpl.
    + now rewrite app_nil_r.
    + rewrite (IH (x :: cur)), (IH [x]).
      destruct (split_go [c] 0 [] s) as [|p ps]; simpl; [reflexivity|].
      now rewrite <- app_assoc.
Qed.

Lemma split_char_nonempty (c : char) (s : str) : split [c] s <> [].
Proof.
  pose proof (split_char_length c s) as H. intros E. rewrite E in H. discriminate.
Qed.

Lemma split_char_sep (c : char) (s : str) : split [c] (c :: s) = [] :: split [c] s.
Proof. unfold split. simpl. now rewrite N.eqb_refl. Qed.

Lemma split_char_other (c x : char) (s : str) :
  x <> c ->
  split [c] (x :: s)
  = match split [c] s with
    | p :: ps => (x :: p) :: ps
    | [] => [[x]]
    end.
Proof.
  intros H. unfold split. simpl.
  destruct (N.eqb c x) eqn:E; [apply N.eqb_eq in E; congruence|]. simpl.
  now rewrite split_go_char_cur.
Qed.

Lemma join_split_char (c : char) (s : str) : join [c] (split [c] s) = s.
Proof.
  induction s as [|x s IH]; [reflexivity|].
  destruct (N.eq_dec x c) as [->|H].
  - rewrite split_char_sep. pose proof (split_char_nonempty c s) as Hn.
    destruct (split [c] s) as [|p ps]; [congruence|]. simpl in *. now rewrite IH.
  - rewrite (split_char_other s H). pose proof (split_char_nonempty c s) as Hn.
    destruct (split [c] s) as [|p [|q ps]]; [congruence| |]; simpl in *; now rewrite <- IH.
Qed.

Lemma split_char_parts (c : char) (s : str) :
  Forall (fun p => ~ In c p) (split [c] s).
Proof.
  induction s as [|x s IH]; [repeat constructor; auto|].
  destruct (N.eq_dec x c) as [->|H].
  - rewrite split_char_sep. constructor; auto.
  - rewrite (split_char_other s H).
    destruct (split [c] s) as [|p ps]; [repeat constructor; simpl; tauto|].
    inversion IH; subst. constructor; [simpl; tauto | assumption].
Qed.

Lemma split_char_none (c : char) (a : str) : ~ In c a -> split [c] a = [a].
Proof.
  induction a as [|x a IH]; intros H; [reflexivity|].
  rewrite split_char_other by (simpl in H; intros ->; tauto).
  rewrite IH by (simpl in H; tauto). reflexivity.
Qed.

Lemma split_char_app (c : char) (a b : str) :
  ~ In c a -> split [c] (a ++ c :: b) = a :: split [c] b.
Proof.
  induction a as [|x a IH]; intros H; simpl; [apply split_char_sep|].
  rewrite split_char_other by (simpl in H; intros ->; tauto).
  rewrite IH by (simpl in H; tauto). reflexivity.
Qed.

Lemma split_join_char (c : char) (l : list str) :
  l <> [] -> Forall (fun p => ~ In c p) l -> split [c] (join [c] l) = l.
Proof.
  induction l as [|p l IH]; intros Hn H; [congruence|].
  inversion H as [|? ? Hp Hl]; subst.
  destruct l as [|q l]; [now apply split_char_none|].
  change (join [c] (p :: q :: l)) with (p ++ c :: join [c] (q :: l)).
  rewrite split_char_app by assumption. rewrite IH; [reflexivity | discriminate | assumption].
Qed.

(** Two parts exactly: the string is the parts around one separator. *)
Lemma split_char_two (c : char) (s a b : str) :
  split [c] s = [a; b] -> s = a ++ c :: b /\ ~ In c a /\ ~ In c b.
Proof.
  intros E. pose proof (join_split_char c s) as J. pose proof (split_char_parts c s) as P.
  rewrite E in J. rewrite E in P. simpl in J.
  inversion P as [|? ? Ha P']. inversion P' as [|? ? Hb _]. auto.
Qed.

Lemma starts_with_self_app (p s : str) : starts_with p (p ++ s) = true.
Proof.
  induction p as [|x p IH]; simpl; [reflexivity|].
  now rewrite N.eqb_refl, IH.
Qed.

Lemma starts_with_app_both (p a b : str) :
  starts_with (p ++ a) (p ++ b) = starts_with a b.
Proof.
  induction p as [|x p IH]; simpl; [reflexivity|].
  now rewrite N.eqb_refl, IH.
Qed.

Lemma starts_with_nil (s : str) : starts_with [] s = true.
Proof. now destruct s. Qed.

(** What is joined of the first parts starts what is joined of all. *)
Lemma join_firstn_prefix (sep : str) (l : list str) :
  forall k, starts_with (join sep (firstn k l)) (join sep l) = true.
Proof.
  induction l as [|p l IH]; intros [|k]; try reflexivity.
  simpl firstn. specialize (IH k).
  destruct l as [|q l].
  - destruct k; simpl; rewrite <- (app_nil_r p) at 2; apply starts_with_self_app.
  - destruct (firstn k (q :: l)) as [|q' l'] eqn:E.
    + simpl join at 1. change (join sep (p :: q :: l)) with (p ++ sep ++ join sep (q :: l)).
      apply starts_with_self_app.
    + change (join sep (p :: q' :: l')) with (p ++ sep ++ join sep (q' :: l')).
      change (join sep (p :: q :: l)) with (p ++ sep ++ join sep (q :: l)).
      now rewrite !starts_with_app_both.
Qed.

(** ** The resolver on well-formed references *)

Lemma unpack2_Ok {A} (parts : list A) (a b : A) :
  unpack2 parts = Ok (a, b) -> parts = [a; b].
Proof.
  destruct parts as [|x [|y [|z l]]]; simpl; intros E; try discriminate.
  now inversion E.
Qed.

(** X1: a reference to a section of the same page, [#] followed by a
    section identifier without [#], that is classified as short-form
    resolves to the part 3 prefix of the chapter-wise rendering, the page
    token of the identifier, [.html#] and the identifier. *)
Theorem X1_same_page_section_reference (sect : str) :
  ~ In hash sect ->
  match_sect_or_chapter (hash :: sect) = true ->
  resolve_href_url (hash :: sect)
  = Ok (SHORT_DICOM_URL_PREFIX ++ get_standard_page sect ++ u ".html#" ++ sect).
Proof.
  intros Hs Hm. unfold resolve_href_url. rewrite Hm.
  unfold get_short_html_location. change (u "#") with [hash].
  rewrite split_char_sep, (split_char_none _ _ Hs). reflexivity.
Qed.

Lemma X1_same_page_section_reference_witness :
  resolve_href_url (hash :: u "sect_C.7.6.3")
  = Ok (SHORT_DICOM_URL_PREFIX ++ get_standard_page (u "sect_C.7.6.3")
          ++ u ".html#" ++ u "sect_C.7.6.3").
Proof.
  apply X1_same_page_section_reference; [|reflexivity].
  vm_compute. intros H. repeat (destruct H as [H|H]; [discriminate|]). exact H.
Defined.

(** X2: a reference that is not classified as short-form, with one [#]
    between its page and its identifier, resolves to the long base URL
    followed by the reference as it is written, with [part03.html] put
    before it when the page is empty. *)
Theorem X2_long_form_reference_kept (page sect : str) :
  ~ In hash page -> ~ In hash sect ->
  match_sect_or_chapter (page ++ hash :: sect) = false ->
  resolve_href_url (page ++ hash :: sect)
  = Ok (BASE_DICOM_URL ++ (if str_eqb page [] then u "part03.html" else [])
          ++ page ++ hash :: sect).
Proof.
  intros Hp Hs Hm. unfold resolve_href_url. rewrite Hm.
  unfold get_long_html_location. change (u "#") with [hash].
  rewrite (split_char_app _ _ _ Hp), (split_char_none _ _ Hs). simpl.
  destruct page as [|x page]; reflexivity.
Qed.

Lemma X2_long_form_reference_kept_witness :
  resolve_href_url (u "part16.html" ++ hash :: u "table_CID_29")
  = Ok (BASE_DICOM_URL ++ [] ++ u "part16.html" ++ hash :: u "table_CID_29").
Proof.
  apply (X2_long_form_reference_kept (u "part16.html") (u "table_CID_29")).
  - vm_compute. intros H. repeat (destruct H as [H|H]; [discriminate|]). exact H.
  - vm_compute. intros H. repeat (destruct H as [H|H]; [discriminate|]). exact H.
  - reflexivity.
Defined.

(** X3: when [resolve_href_url] returns, the reference was a page, one [#]
    and an identifier, and the URL is one of the two base URLs followed by
    a path that ends in [#] and that identifier. *)
Theorem X3_resolved_url_keeps_fragment (href url : str) :
  resolve_href_url href = Ok url ->
  exists page sect path,
    href = page ++ hash :: sect
    /\ ~ In hash page /\ ~ In hash sect
    /\ (url = BASE_SHORT_DICOM_SECTION_URL ++ path ++ hash :: sect
        \/ url = BASE_DICOM_URL ++ path ++ hash :: sect).
Proof.
  unfold resolve_href_url, get_short_html_location, get_long_html_location.
  change (u "#") with [hash].
  destruct (unpack2 (split [hash] href)) as [[page sect]|e] eqn:E; simpl.
  - apply unpack2_Ok in E. apply split_char_two in E as (-> & Hp & Hs).
    destruct (match_sect_or_chapter (page ++ hash :: sect)); simpl.
    + destruct (unpack2 (split (u ".html") (if str_eqb page [] then u "part03.html" else page)))
        as [[chapter x]|e] eqn:E2; simpl; [|discriminate].
      intros H; inversion H; subst.
      exists page, sect, (chapter ++ u "/" ++ get_standard_page sect ++ u ".html").
      repeat split; try assumption. left.
      change (u ".html#" ++ sect) with (u ".html" ++ hash :: sect).
      now rewrite <- !app_assoc.
    + intros H; inversion H; subst.
      exists page, sect, (if str_eqb page [] then u "part03.html" else page).
      repeat split; auto.
  - destruct (match_sect_or_chapter href); discriminate.
Qed.

Lemma X3_resolved_url_keeps_fragment_witness :
  exists page sect path,
    u "#sect_10.1.2" = page ++ hash :: sect
    /\ ~ In hash page /\ ~ In hash sect
    /\ (Sample.chapter_10_url = BASE_SHORT_DICOM_SECTION_URL ++ path ++ hash :: sect
        \/ Sample.chapter_10_url = BASE_DICOM_URL ++ path ++ hash :: sect).
Proof.
  apply (X3_resolved_url_keeps_fragment (u "#sect_10.1.2")). reflexivity.
Defined.

(** ** Page tokens *)

Lemma In_firstn {A} (x : A) (k : nat) (l : list A) : In x (firstn k l) -> In x l.
Proof.
  intros H. rewrite <- (firstn_skipn k l). apply in_or_app. now left.
Qed.

Lemma index_Some_firstn (x : str) (l : list str) :
  forall k, index x l = Some k -> ~ In x (firstn k l) /\ k < length l.
Proof.
  induction l as [|y l IH]; intros k; simpl; [discriminate|].
  destruct (str_eqb y x) eqn:E.
  - intros H; inversion H; subst. simpl. split; [tauto | lia].
  - destruct (index x l) as [k'|]; simpl; [|discriminate].
    intros H; inversion H; subst. destruct (IH k' eq_refl) as [Hn Hl].
    apply str_eqb_neq in E. simpl. split; [tauto | lia].
Qed.

Lemma replace_go_chars (old new : str) (c : char) (s : str) :
  forall skip, In c (replace_go old new skip s) -> In c s \/ In c new.
Proof.
  induction s as [|x s IH]; intros skip; simpl; [tauto|].
  destruct skip as [|k].
  - destruct (starts_with old (x :: s)).
    + rewrite in_app_iff. intros [H|H]; [tauto|]. apply IH in H. tauto.
    + simpl. intros [H|H]; [tauto|]. apply IH in H. tauto.
  - intros H. apply IH in H. tauto.
Qed.

Lemma replace_go_nil (old new : str) (s : str) :
  new <> [] -> replace_go old new 0 s = [] -> s = [].
Proof.
  intros Hn. destruct s as [|x s]; simpl; [reflexivity|].
  destruct (starts_with old (x :: s)); [|discriminate].
  destruct new; [congruence | discriminate].
Qed.

(** Putting [chapter_] for [sect_] makes no ["1"] out of another string. *)
Lemma replace_sect_not_1 (s : str) :
  replace (u "sect_") (u "chapter_") s = u "1" -> s = u "1".
Proof.
  unfold replace. destruct s as [|x s]; [discriminate|].
  unfold replace_go; fold replace_go.
  destruct (starts_with (u "sect_") (x :: s)); [discriminate|].
  intros H. injection H as Hx Hs.
  apply replace_go_nil in Hs; [now subst | discriminate].
Qed.

Lemma not_In_index_None (x : str) (l : list str) : index x l = None -> ~ In x l.
Proof.
  induction l as [|y l IH]; simpl; [tauto|].
  destruct (str_eqb y x) eqn:Ey; [discriminate|].
  destruct (index x l); [discriminate|]. intros _.
  apply str_eqb_neq in Ey. intros [H|H]; [congruence | now apply IH].
Qed.

Lemma cut_at_1_no_1 (id : str) : ~ In (u "1") (split (u ".") (cut_at_1 id)).
Proof.
  unfold cut_at_1. change (u ".") with [46%N].
  destruct (index (u "1") (split [46%N] id)) as [k|] eqn:E;
    [|now apply not_In_index_None].
  pose proof (split_char_parts 46%N id) as Hparts.
  apply index_Some_firstn in E as [Hn _].
  assert (Hfree : Forall (fun p => ~ In 46%N p) (firstn k (split [46%N] id))).
  { apply Forall_forall. intros p Hp. apply In_firstn in Hp.
    rewrite Forall_forall in Hparts. auto. }
  destruct (firstn k (split [46%N] id)) as [|p l] eqn:Ef.
  - simpl. intros [H|[]]. discriminate.
  - rewrite split_join_char; [assumption | discriminate | assumption].
Qed.

Lemma get_standard_page_no_1 (sect_id : str) :
  ~ In (u "1") (split (u ".") (get_standard_page sect_id)).
Proof.
  unfold get_standard_page. change (u ".") with [46%N].
  destruct (index (u "1") (split [46%N] sect_id)) as [k|] eqn:E;
    [|now apply not_In_index_None].
  pose proof (split_char_parts 46%N sect_id) as Hparts.
  apply index_Some_firstn in E as [Hn _].
  assert (Hfree : Forall (fun p => ~ In 46%N p) (firstn k (split [46%N] sect_id))).
  { apply Forall_forall. intros p Hp. apply In_firstn in Hp.
    rewrite Forall_forall in Hparts. auto. }
  destruct (firstn k (split [46%N] sect_id)) as [|p [|q l]] eqn:Ef.
  - simpl. intros [H|[]]. discriminate.
  - simpl length. simpl Nat.eqb. cbv iota. simpl join.
    inversion Hfree as [|? ? Hp _]; subst.
    rewrite split_char_none.
    + intros [H|[]]. apply replace_sect_not_1 in H. simpl in Hn. tauto.
    + intros H. apply replace_go_chars in H as [H|H]; [tauto|].
      simpl in H. repeat (destruct H as [H|H]; [discriminate|]). exact H.
  - simpl length. simpl Nat.eqb. cbv iota.
    rewrite split_join_char; [assumption | discriminate | assumption].
Qed.

(** X4: no dot-separated component of the page token that
    [get_standard_page] returns is ["1"]; so the page token of a page token
    is the page token itself. *)
Theorem X4_page_token_has_no_1_component (sect_id : str) :
  ~ In (u "1") (split (u ".") (get_standard_page sect_id))
  /\ get_standard_page (get_standard_page sect_id) = get_standard_page sect_id.
Proof.
  split; [apply get_standard_page_no_1|].
  unfold get_standard_page at 1.
  now rewrite (index_None _ _ (get_standard_page_no_1 sect_id)).
Qed.

Lemma table_parent_page_cut (table_div : element) (p d1 d2 d3 anchor : node) (id : str) :
  parent table_div = Some p ->
  find (u "div") p = Some d1 ->
  find (u "div") d1 = Some d2 ->
  find (u "div") d2 = Some d3 ->
  find (u "a") d3 = Some anchor ->
  get_attr (u "id") anchor = Some id ->
  table_parent_page table_div = Ok (cut_at_1 id).
Proof.
  intros Hp H1 H2 H3 Ha Hid. unfold table_parent_page, cut_at_1.
  rewrite Hp. simpl. rewrite H1. simpl. rewrite H2. simpl. rewrite H3. simpl.
  rewrite Ha. simpl. rewrite Hid. simpl.
  now destruct (index (u "1") (split (u ".") id)).
Qed.

Lemma starts_with_refl (s : str) : starts_with s s = true.
Proof. rewrite <- (app_nil_r s) at 2. apply starts_with_self_app. Qed.

Lemma cut_at_1_prefix (id : str) : starts_with (cut_at_1 id) id = true.
Proof.
  unfold cut_at_1. change (u ".") with [46%N].
  destruct (index (u "1") (split [46%N] id)) as [k|]; [|apply starts_with_refl].
  rewrite <- (join_split_char 46%N id) at 2. apply join_firstn_prefix.
Qed.

(** X5: when the heading anchor above a table has an [id],
    [table_parent_page] returns a page that starts the [id] and has no
    ["1"] among its dot-separated components; it is the page token
    [get_standard_page] computes from the [id], up to the [chapter_] that
    [get_standard_page] puts for [sect_]. *)
Theorem X5_table_parent_page_cuts_the_id
        (table_div : element) (p d1 d2 d3 anchor : node) (id : str) :
  parent table_div = Some p ->
  find (u "div") p = Some d1 ->
  find (u "div") d1 = Some d2 ->
  find (u "div") d2 = Some d3 ->
  find (u "a") d3 = Some anchor ->
  get_attr (u "id") anchor = Some id ->
  exists page,
    table_parent_page table_div = Ok page
    /\ starts_with page id = true
    /\ ~ In (u "1") (split (u ".") page)
    /\ (get_standard_page id = page
        \/ get_standard_page id = replace (u "sect_") (u "chapter_") page).
Proof.
  intros Hp H1 H2 H3 Ha Hid. exists (cut_at_1 id).
  split; [eapply table_parent_page_cut; eauto|].
  split; [apply cut_at_1_prefix|]. split; [apply cut_at_1_no_1|].
  unfold get_standard_page, cut_at_1.
  destruct (index (u "1") (split (u ".") id)) as [k|]; [|now left].
  destruct (Nat.eqb (length (firstn k (split (u ".") id))) 1); auto.
Qed.

Lemma X5_table_parent_page_cuts_the_id_witness :
  exists page,
    table_parent_page Sample2.table_C_7_1 = Ok page
    /\ starts_with page (u "sect_C.7.1.1") = true
    /\ ~ In (u "1") (split (u ".") page)
    /\ (get_standard_page (u "sect_C.7.1.1") = page
        \/ get_standard_page (u "sect_C.7.1.1")
           = replace (u "sect_") (u "chapter_") page).
Proof.
  eapply (X5_table_parent_page_cuts_the_id Sample2.table_C_7_1); reflexivity.
Defined.

(** ** What the resolution pass changes *)

(** X6: on an anchor whose [href] does not start with [http] or [ftp],
    [update_anchor_href], when it returns, has put the resolved URL for the
    [href], [_blank] for the [target], and has left every other attribute
    as it was. *)
Theorem X6_update_anchor_href_effect (anchor anchor' : dict) (href : str) :
  get (u "href") anchor = Some href ->
  match_protocol href = false ->
  update_anchor_href anchor = Ok anchor' ->
  (exists url, resolve_href_url href = Ok url /\ get (u "href") anchor' = Some url)
  /\ get (u "target") anchor' = Some (u "_blank")
  /\ forall k, k <> u "href" -> k <> u "target" -> get k anchor' = get k anchor.
Proof.
  intros Hh Hp. rewrite (update_anchor_href_get _ Hh), Hp.
  destruct (resolve_href_url href) as [url|e]; simpl; [|discriminate].
  intros E; inversion E; subst. split; [|split].
  - exists url. split; [reflexivity|].
    rewrite get_setitem_other by discriminate. apply get_setitem_same.
  - apply get_setitem_same.
  - intros k Hk Ht. now rewrite !get_setitem_other.
Qed.

Lemma X6_update_anchor_href_effect_witness :
  (exists url,
      resolve_href_url (u "#sect_10.1.2") = Ok url
      /\ get (u "href")
           (setitem (u "target") (u "_blank")
              (setitem (u "href") Sample.chapter_10_url Sample2.section_anchor))
         = Some url)
  /\ get (u "target")
       (setitem (u "target") (u "_blank")
          (setitem (u "href") Sample.chapter_10_url Sample2.section_anchor))
     = Some (u "_blank")
  /\ forall k, k <> u "href" -> k <> u "target" ->
               get k (setitem (u "target") (u "_blank")
                        (setitem (u "href") Sample.chapter_10_url Sample2.section_anchor))
               = get k Sample2.section_anchor.
Proof.
  apply (X6_update_anchor_href_effect Sample2.section_anchor); reflexivity.
Defined.

(** X7: the resolution pass is idempotent: on a document it has returned
    it returns the same document. *)
Theorem X7_resolution_pass_idempotent (html html' : list node) :
  resolve_relative_resource_urls html = Ok html' ->
  resolve_relative_resource_urls html' = Ok html'.
Proof.
  intros H. apply resolve_relative_resource_urls_Ok in H as [Hr ->].
  apply absolute_document_fixed.
  rewrite doc_tags_map_attrs. apply Forall_map.
  eapply Forall_impl; [|exact Hr]. intros [n d] Hd. simpl. split.
  - now apply resolved_printed_absolute.
  - apply sorted_items_idempotent.
Qed.

Lemma X7_resolution_pass_idempotent_witness :
  resolve_relative_resource_urls Sample.figures_resolved = Ok Sample.figures_resolved.
Proof.
  apply (X7_resolution_pass_idempotent Sample.figures). reflexivity.
Defined.

Lemma resolved_other_attributes (n : str) (d : dict) (k : str) :
  ~ In k [u "href"; u "target"; u "src"; u "data"] ->
  get k (resolved n d) = get k d.
Proof.
  intros Hk. simpl in Hk.
  assert (step : forall name attr f n d,
             (forall d', f d = Ok d' -> get k d' = get k d) ->
             get k (on_tag name attr f n d) = get k d).
  { intros name attr f n0 d0 Hf.
    destruct (on_tag_cases name attr f n0 d0) as [E|[_ E]]; [now rewrite E | now apply Hf]. }
  assert (res : forall attr d d', attr <> k ->
                  resolve_resource attr d = Ok d' -> get k d' = get k d).
  { intros attr d0 d' Ha. unfold resolve_resource, has_protocol_prefix, getitem.
    destruct (get attr d0) as [w|]; simpl; [|discriminate].
    destruct (match_protocol w); simpl; intros E; inversion E; subst; [reflexivity|].
    apply get_setitem_other. congruence. }
  unfold resolved. rewrite !step; try reflexivity.
  - intros d'. unfold update_anchor_href, has_protocol_prefix, getitem.
    destruct (get (u "href") d) as [w|]; simpl; [|discriminate].
    destruct (match_protocol w); simpl; [intros E; inversion E; now subst|].
    destruct (resolve_href_url w); simpl; intros E; inversion E; subst.
    rewrite !get_setitem_other; [reflexivity| |]; intros ->; tauto.
  - intros d'. apply res. intros <-. tauto.
  - intros d'. apply res. intros <-. tauto.
Qed.

(** X8: the resolution pass changes attributes only, and of them only
    [href], [target], [src] and [data]: the documents it returns have the
    text of each top-level node, the tags in their order with their names,
    and every other attribute of every tag as they were. *)
Theorem X8_resolution_pass_frame (html html' : list node) :
  resolve_relative_resource_urls html = Ok html' ->
  map text html' = map text html
  /\ Forall2
       (fun tag tag' =>
          fst tag' = fst tag
          /\ forall k, ~ In k [u "href"; u "target"; u "src"; u "data"] ->
                       get k (snd tag') = get k (snd tag))
       (doc_tags html) (doc_tags html').
Proof.
  intros H. apply resolve_relative_resource_urls_Ok in H as [_ ->]. split.
  - rewrite map_map. apply map_ext. intros t. apply text_map_attrs.
  - rewrite doc_tags_map_attrs. apply Forall2_map_r.
    intros [n d] _. simpl. split; [reflexivity|].
    intros k Hk. unfold resolved_printed. rewrite get_sorted_items.
    now apply resolved_other_attributes.
Qed.

Lemma X8_resolution_pass_frame_witness :
  map text Sample.figures_resolved = map text Sample.figures
  /\ Forall2
       (fun tag tag' =>
          fst tag' = fst tag
          /\ forall k, ~ In k [u "href"; u "target"; u "src"; u "data"] ->
                       get k (snd tag') = get k (snd tag))
       (doc_tags Sample.figures) (doc_tags Sample.figures_resolved).
Proof.
  apply (X8_resolution_pass_frame Sample.figures). reflexivity.
Defined.

(** X9: only anchors make the resolution pass raise: on a document in
    which the [href] of every anchor starts with [http] or [ftp] it
    returns, whatever the images and objects refer to. *)
Theorem X9_resolution_pass_returns_without_relative_anchors (html : list node) :
  (forall attrs href,
      In (u "a", attrs) (doc_tags html) -> get (u "href") attrs = Some href ->
      match_protocol href = true) ->
  exists html', resolve_relative_resource_urls html = Ok html'.
Proof.
  intros H. exists (map (map_attrs resolved_printed) html).
  apply resolve_relative_resource_urls_Ok. split; [|reflexivity].
  apply Forall_forall. intros [n d] Hin Hs.
  apply selected_inv in Hs as [-> [v Hv]]. simpl.
  rewrite (update_anchor_href_get _ Hv), (H d v Hin Hv). eauto.
Qed.

Lemma X9_resolution_pass_returns_without_relative_anchors_witness :
  exists html', resolve_relative_resource_urls Sample.figures = Ok html'.
Proof.
  apply X9_resolution_pass_returns_without_relative_anchors.
  intros attrs href Hin Hget. simpl in Hin.
  repeat (destruct Hin as [Hin|Hin]; [try discriminate|]); [|destruct Hin].
  injection Hin as <-. vm_compute in Hget. injection Hget as <-. reflexivity.
Defined.

(** ** What the sanitizer keeps *)

Lemma remove_attributes_inv (top t' : node) :
  remove_attributes_from_html_tags top = Ok t' ->
  t' = map_attrs keep_allowed top
  /\ exists name attrs contents, top = Tag name attrs contents.
Proof.
  destruct top as [name attrs contents|s]; simpl; [|discriminate].
  intros E. injection E as <-. split; [|eauto].
  change (clean_all (Tag name attrs contents) = map_attrs keep_allowed (Tag name attrs contents)).
  apply clean_all_map_attrs.
Qed.

(** X10: the attribute pass changes attributes only, and takes none of the
    allow-listed ones away: the tree it returns has the text of the tree
    it was given, the same tags in the same order, and for every tag the
    value of every allow-listed attribute as it was. *)
Theorem X10_attribute_pass_keeps_allowed (top t' : node) :
  remove_attributes_from_html_tags top = Ok t' ->
  text t' = text top
  /\ Forall2
       (fun tag tag' =>
          fst tag' = fst tag
          /\ forall k, In k allowed_attributes -> get k (snd tag') = get k (snd tag))
       (tags top) (tags t').
Proof.
  intros H. apply remove_attributes_inv in H as [-> _]. split.
  - apply text_map_attrs.
  - rewrite tags_map_attrs. apply Forall2_map_r.
    intros [n d] _. simpl. split; [reflexivity|].
    intros k Hk. rewrite get_keep_allowed.
    apply is_allowed_In in Hk. now rewrite Hk.
Qed.

Lemma X10_attribute_pass_keeps_allowed_witness :
  text (Tag (u "td") [(u "colspan", u "2")] [NavigableString (u "Attribute Name")])
  = text (Tag (u "td") [(u "align", u "left"); (u "colspan", u "2")]
            [NavigableString (u "Attribute Name")])
  /\ Forall2
       (fun tag tag' =>
          fst tag' = fst tag
          /\ forall k, In k allowed_attributes -> get k (snd tag') = get k (snd tag))
       (tags (Tag (u "td") [(u "align", u "left"); (u "colspan", u "2")]
                [NavigableString (u "Attribute Name")]))
       (tags (Tag (u "td") [(u "colspan", u "2")] [NavigableString (u "Attribute Name")])).
Proof.
  apply (X10_attribute_pass_keeps_allowed
           (Tag (u "td") [(u "align", u "left"); (u "colspan", u "2")]
              [NavigableString (u "Attribute Name")])).
  reflexivity.
Defined.

(** X11: the attribute pass is idempotent: on a tree it has returned it
    returns the same tree. *)
Theorem X11_attribute_pass_idempotent (top t' : node) :
  remove_attributes_from_html_tags top = Ok t' ->
  remove_attributes_from_html_tags t' = Ok t'.
Proof.
  destruct top as [name attrs contents|s]; simpl; [|discriminate].
  intros E. injection E as <-.
  change (Ok (clean_all (clean_all (Tag name attrs contents)))
          = Ok (clean_all (Tag name attrs contents))).
  now rewrite clean_all_idempotent.
Qed.

Lemma X11_attribute_pass_idempotent_witness :
  remove_attributes_from_html_tags
    (Tag (u "td") [(u "colspan", u "2")] [NavigableString (u "Attribute Name")])
  = Ok (Tag (u "td") [(u "colspan", u "2")] [NavigableString (u "Attribute Name")]).
Proof.
  apply (X11_attribute_pass_idempotent
           (Tag (u "td") [(u "align", u "left"); (u "colspan", u "2")]
              [NavigableString (u "Attribute Name")])).
  reflexivity.
Defined.

Lemma remove_empty_children_inv (top t : node) :
  remove_empty_children top = Ok t ->
  t = decompose_empty_anchors top
  /\ exists name attrs contents, top = Tag name attrs contents.
Proof.
  destruct top as [name attrs contents|s]; [|discriminate].
  rewrite remove_empty_children_Tag. intros E. injection E as <-. eauto.
Qed.

Lemma tags_decompose_incl (t : node) :
  incl (tags (decompose_empty_anchors t)) (tags t).
Proof.
  induction t as [name attrs contents IH|s] using node_induction; simpl;
    [|apply incl_refl].
  intros tag [<-|H]; [now left|]. right.
  apply in_flat_map in H as (c' & Hc' & Htag).
  apply in_flat_map in Hc' as (c & Hc & Hin).
  destruct (is_empty_anchor c); [destruct Hin|].
  destruct Hin as [<-|[]]. apply in_flat_map. exists c. split; [assumption|].
  rewrite Forall_forall in IH. now apply (IH c Hc).
Qed.

(** X12: [remove_empty_children] takes no text away and is idempotent: the
    tree it returns has the text of the tree it was given, and given that
    tree it returns it again. *)
Theorem X12_remove_empty_children_keeps_text (top t : node) :
  remove_empty_children top = Ok t ->
  text t = text top /\ remove_empty_children t = Ok t.
Proof.
  intros H. apply remove_empty_children_inv in H as [-> (name & attrs & contents & ->)].
  split; [apply text_decompose|].
  change (decompose_empty_anchors (Tag name attrs contents))
    with (Tag name attrs
            (flat_map (fun c => if is_empty_anchor c then [] else [decompose_empty_anchors c])
               contents)) at 1.
  rewrite remove_empty_children_Tag. f_equal.
  apply decompose_fixed.
  apply (decompose_no_empty_anchor (Tag name attrs contents)).
Qed.

Lemma X12_remove_empty_children_keeps_text_witness :
  text (Tag (u "p") [] []) = text (Tag (u "p") [] [Tag (u "a") [(u "href", u "figure.html")] []])
  /\ remove_empty_children (Tag (u "p") [] []) = Ok (Tag (u "p") [] []).
Proof.
  apply (X12_remove_empty_children_keeps_text
           (Tag (u "p") [] [Tag (u "a") [(u "href", u "figure.html")] []])).
  reflexivity.
Defined.

(** X13: [remove_empty_children] only removes: every tag of the tree it
    returns is a tag of the tree it was given, with the same attributes;
    and a tree with no empty anchor below its top is returned as it is. *)
Theorem X13_remove_empty_children_only_removes (top t : node) :
  remove_empty_children top = Ok t ->
  (forall tag, In tag (tags t) -> In tag (tags top))
  /\ (Forall (fun d => is_empty_anchor d = false) (descendants top) -> t = top).
Proof.
  intros H. apply remove_empty_children_inv in H as [-> _]. split.
  - apply tags_decompose_incl.
  - apply decompose_fixed.
Qed.

Lemma X13_remove_empty_children_only_removes_witness :
  (forall tag, In tag (tags (Tag (u "p") [] [])) ->
               In tag (tags (Tag (u "p") [] [Tag (u "a") [(u "href", u "figure.html")] []])))
  /\ (Forall (fun d => is_empty_anchor d = false)
        (descendants (Tag (u "p") [] [Tag (u "a") [(u "href", u "figure.html")] []])) ->
      Tag (u "p") [] [] = Tag (u "p") [] [Tag (u "a") [(u "href", u "figure.html")] []]).
Proof.
  apply (X13_remove_empty_children_only_removes
           (Tag (u "p") [] [Tag (u "a") [(u "href", u "figure.html")] []])).
  reflexivity.
Defined.

(** X14: the two passes of the sanitizer commute: removing the empty
    anchors and then filtering the attributes gives what [clean_html]
    gets by filtering first, an exception included. *)
Theorem X14_sanitizer_passes_commute (top : node) :
  (t <- remove_empty_children top ;; remove_attributes_from_html_tags t) = sanitize top.
Proof.
  destruct top as [name attrs contents|s]; [|reflexivity].
  rewrite sanitize_Tag, remove_empty_children_Tag.
  change (remove_attributes_from_html_tags (decompose_empty_anchors (Tag name attrs contents))
          = Ok (decompose_empty_anchors (clean_all (Tag name attrs contents)))).
  change (Ok (clean_all (decompose_empty_anchors (Tag name attrs contents)))
          = Ok (decompose_empty_anchors (clean_all (Tag name attrs contents)))).
  now rewrite !clean_all_map_attrs, decompose_map_attrs.
Qed.

(** ** What [clean_html] returns *)

(** What the sanitizer, the printer and the parser leave of the text of
    a tag. *)
Lemma text_cleaned (g : str -> dict -> dict) (t : node) :
  without_ascii_space
    (text (map_attrs g (reparse false (decompose_empty_anchors (clean_all t)))))
  = without_ascii_space (text t).
Proof.
  now rewrite text_map_attrs, text_reparse, text_decompose, clean_all_map_attrs,
    text_map_attrs.
Qed.

(** The printing, on three fragments: the attributes of the cleaned
    anchor come in sorted order, [target] before [type]; the strings on
    the two sides of a removed anchor are one string in the result; and
    where both are spaces, one space. *)
Lemma clean_html_prints :
  clean_html
    [Tag (u "a") [(u "type", u "text/html"); (u "shape", u "rect");
                  (u "href", u "#sect_10.1.2")]
       [NavigableString (u "Section 10.1.2")]]
  = Ok [Tag (u "a") [(u "href", Sample.chapter_10_url); (u "target", u "_blank");
                     (u "type", u "text/html")]
          [NavigableString (u "Section 10.1.2")]]
  /\ clean_html
       [Tag (u "p") []
          [NavigableString (u "Table "); Tag (u "a") [(u "id", u "table_C.7-1")] [];
           NavigableString (u "C.7-1")]]
     = Ok [Tag (u "p") [] [NavigableString (u "Table C.7-1")]]
  /\ clean_html Sample.spaced_words = Ok Sample.spaced_words_cleaned.
Proof. split; [reflexivity | split; reflexivity]. Qed.

(** X15: [clean_html] cleans the first top-level node of a fragment and
    nothing else: when it returns, that node is a tag, the result is one
    tag of the same name whose text is the text of that node but for ASCII
    whitespace, and it is the result for the fragment that holds this node
    alone. *)
Theorem X15_clean_html_cleans_the_first_node (html out : list node) :
  clean_html html = Ok out ->
  exists name attrs contents rest attrs' contents',
    html = Tag name attrs contents :: rest
    /\ out = [Tag name attrs' contents']
    /\ without_ascii_space (text (Tag name attrs' contents'))
       = without_ascii_space (text (Tag name attrs contents))
    /\ clean_html [Tag name attrs contents] = Ok out.
Proof.
  intros H. pose proof H as H0.
  apply clean_html_inv in H as (name & attrs & contents & rest & -> & _ & ->).
  pose proof (text_cleaned resolved_printed (Tag name attrs contents)) as Ht.
  exists name, attrs, contents, rest. eexists. eexists.
  split; [reflexivity|]. split; [reflexivity|]. split; [exact Ht|].
  rewrite clean_html_Tag in *. exact H0.
Qed.

(** Two words with an empty anchor between them: the strings on the two
    sides of the anchor come back as one space. *)
Lemma X15_clean_html_cleans_the_first_node_witness :
  exists name attrs contents rest attrs' contents',
    Sample.spaced_words = Tag name attrs contents :: rest
    /\ Sample.spaced_words_cleaned = [Tag name attrs' contents']
    /\ without_ascii_space (text (Tag name attrs' contents'))
       = without_ascii_space (text (Tag name attrs contents))
    /\ clean_html [Tag name attrs contents] = Ok Sample.spaced_words_cleaned.
Proof.
  apply (X15_clean_html_cleans_the_first_node Sample.spaced_words). reflexivity.
Defined.

Lemma setitem_Forall (Q : str * str -> Prop) (k v : str) (d : dict) :
  Q (k, v) -> Forall Q d -> Forall Q (setitem k v d).
Proof.
  intros Hk. induction 1 as [|[k' v'] d Hkv Hd IH]; simpl; [now constructor|].
  destruct (str_eqb k' k); now constructor.
Qed.

(** The keys the resolution pass may write. *)
Lemma resolved_keys (n : str) (d : dict) :
  Forall (fun kv => In (fst kv) allowed_attributes \/ fst kv = u "target") d ->
  Forall (fun kv => In (fst kv) allowed_attributes \/ fst kv = u "target") (resolved n d).
Proof.
  set (Q := fun kv : str * str => In (fst kv) allowed_attributes \/ fst kv = u "target").
  assert (step : forall name attr f n d,
             (forall d', f d = Ok d' -> Forall Q d -> Forall Q d') ->
             Forall Q d -> Forall Q (on_tag name attr f n d)).
  { intros name attr f n0 d0 Hf H.
    destruct (on_tag_cases name attr f n0 d0) as [E|[_ E]]; [now rewrite E | now apply Hf]. }
  assert (res : forall attr d d', In attr allowed_attributes ->
                  resolve_resource attr d = Ok d' -> Forall Q d -> Forall Q d').
  { intros attr d0 d' Ha. unfold resolve_resource, has_protocol_prefix, getitem.
    destruct (get attr d0) as [w|]; simpl; [|discriminate].
    destruct (match_protocol w); simpl; intros E; inversion E; subst; [auto|].
    intros H. apply setitem_Forall; [left; exact Ha | exact H]. }
  intros H. unfold resolved. apply step; [|apply step; [|apply step; [|exact H]]].
  - intros d'. apply res. simpl. tauto.
  - intros d'. apply res. simpl. tauto.
  - intros d'. unfold update_anchor_href, has_protocol_prefix, getitem.
    destruct (get (u "href") d) as [w|]; simpl; [|discriminate].
    destruct (match_protocol w); simpl; [intros E; inversion E; now subst|].
    destruct (resolve_href_url w); simpl; intros E; inversion E; subst.
    intros H'. apply setitem_Forall; [now right|].
    apply setitem_Forall; [left; simpl; tauto | exact H'].
Qed.

(** X16: in what [clean_html] returns, every attribute key of every tag is
    allow-listed or is [target]; the [href] of every anchor, the [src] of
    every image and the [data] of every object start with [http] or [ftp];
    and no anchor below the top-level tag has empty text. *)
Theorem X16_clean_html_guarantee (html out : list node) :
  clean_html html = Ok out ->
  Forall
    (fun tag =>
       Forall (fun kv => In (fst kv) allowed_attributes \/ fst kv = u "target") (snd tag)
       /\ forall k v,
           (fst tag = u "a" /\ k = u "href") \/ (fst tag = u "img" /\ k = u "src")
           \/ (fst tag = u "object" /\ k = u "data") ->
           get k (snd tag) = Some v -> match_protocol v = true)
    (doc_tags out)
  /\ Forall (fun t => Forall (fun d => is_empty_anchor d = false) (descendants t)) out.
Proof.
  intros H. apply clean_html_inv in H as (name & attrs & contents & rest & -> & Hr & ->).
  split.
  - rewrite doc_tags_single, tags_map_attrs. apply Forall_map.
    rewrite Forall_forall in *. intros [n d] Hin. simpl. split.
    + unfold resolved_printed. apply Forall_sorted_items. apply resolved_keys.
      rewrite tags_reparse in Hin.
      apply in_map_iff in Hin as ([n1 d1] & E1 & Hin). inversion E1; subst.
      apply Forall_sorted_items.
      pose proof (tags_decompose_incl _ _ Hin) as Hin'.
      rewrite clean_all_map_attrs, tags_map_attrs in Hin'.
      apply in_map_iff in Hin' as ([n0 d0] & E & _). inversion E; subst.
      eapply Forall_impl; [|apply keep_allowed_only]. simpl. auto.
    + apply (resolved_printed_absolute (Hr _ Hin)).
  - constructor; [|constructor].
    apply (no_empty_anchor_map_attrs resolved_printed).
    apply no_empty_anchor_reparse. apply decompose_no_empty_anchor.
Qed.

Lemma X16_clean_html_guarantee_witness :
  Forall
    (fun tag =>
       Forall (fun kv => In (fst kv) allowed_attributes \/ fst kv = u "target") (snd tag)
       /\ forall k v,
           (fst tag = u "a" /\ k = u "href") \/ (fst tag = u "img" /\ k = u "src")
           \/ (fst tag = u "object" /\ k = u "data") ->
           get k (snd tag) = Some v -> match_protocol v = true)
    (doc_tags Sample.cleaned_once)
  /\ Forall (fun t => Forall (fun d => is_empty_anchor d = false) (descendants t))
       Sample.cleaned_once.
Proof.
  apply (X16_clean_html_guarantee Sample.relative_anchor). reflexivity.
Defined.

(** ** Stripped text *)

Lemma lstrip_split (s : str) :
  exists sp, s = sp ++ lstrip s.
Proof.
  induction s as [|c s [sp IH]]; simpl; [now exists []|].
  destruct (is_space c); [|now exists []].
  exists (c :: sp). simpl. now rewrite <- IH.
Qed.

Lemma lstrip_head (s : str) (c : char) (rest : str) :
  lstrip s = c :: rest -> is_space c = false.
Proof.
  induction s as [|x s IH]; simpl; [discriminate|].
  destruct (is_space x) eqn:E; [exact IH|].
  intros H; inversion H; now subst.
Qed.

(** What [strip] returns is a part of its argument that neither starts nor
    ends with whitespace. *)
Lemma strip_ends (s : str) :
  (exists before after, s = before ++ strip s ++ after)
  /\ (forall c rest, strip s = c :: rest -> is_space c = false)
  /\ (forall init c, strip s = init ++ [c] -> is_space c = false).
Proof.
  unfold strip, rstrip.
  destruct (lstrip_split s) as [sp1 E1].
  destruct (lstrip_split (rev (lstrip s))) as [sp2 E2].
  assert (E3 : lstrip s = rev (lstrip (rev (lstrip s))) ++ rev sp2).
  { rewrite <- rev_app_distr, <- E2. now rewrite rev_involutive. }
  split; [|split].
  - exists sp1, (rev sp2). now rewrite <- E3.
  - intros c rest H. rewrite H in E3. simpl in E3. eapply lstrip_head; eauto.
  - intros init c H. apply (f_equal (@rev char)) in H.
    rewrite rev_involutive, rev_app_distr in H. simpl in H.
    eapply lstrip_head; eauto.
Qed.

(** X17: the text [text_from_html_string] returns neither starts nor ends
    with whitespace. *)
Theorem X17_text_from_html_string_is_stripped (html : list node) :
  (forall c rest, text_from_html_string html = c :: rest -> is_space c = false)
  /\ (forall init c, text_from_html_string html = init ++ [c] -> is_space c = false).
Proof. unfold text_from_html_string. apply strip_ends. Qed.

Lemma is_ascii_space_is_space (c : char) : is_ascii_space c = true -> is_space c = true.
Proof.
  unfold is_ascii_space. rewrite !orb_true_iff, !N.eqb_eq.
  intros [[[[->| ->]| ->]| ->]| ->]; reflexivity.
Qed.

Lemma lstrip_without_ascii_space (s : str) :
  without_ascii_space (lstrip s) = lstrip (without_ascii_space s).
Proof.
  induction s as [|c s IH]; [reflexivity|].
  unfold without_ascii_space in *. simpl.
  destruct (is_space c) eqn:Es.
  - rewrite IH. destruct (is_ascii_space c); simpl; [reflexivity | now rewrite Es].
  - destruct (is_ascii_space c) eqn:Ea.
    + apply is_ascii_space_is_space in Ea. congruence.
    + simpl. now rewrite Ea, Es.
Qed.

(** Taking the ASCII whitespace out and stripping commute. *)
Lemma strip_without_ascii_space (s : str) :
  without_ascii_space (strip s) = strip (without_ascii_space s).
Proof.
  unfold strip, rstrip.
  transitivity (rev (without_ascii_space (lstrip (rev (lstrip s)))));
    [apply filter_rev|].
  rewrite lstrip_without_ascii_space. do 2 f_equal.
  transitivity (rev (without_ascii_space (lstrip s))); [apply filter_rev|].
  now rewrite lstrip_without_ascii_space.
Qed.

(** X18: cleaning keeps the text but for ASCII whitespace: with the ASCII
    whitespace taken out, the text of what [clean_html] returns is the
    text of the first top-level node of the fragment. *)
Theorem X18_clean_html_keeps_the_text (top : node) (rest out : list node) :
  clean_html (top :: rest) = Ok out ->
  without_ascii_space (text_from_html_string out)
  = without_ascii_space (text_from_html_string [top]).
Proof.
  intros H. apply clean_html_inv in H as (name & attrs & contents & rest' & E & _ & ->).
  injection E as -> _. unfold text_from_html_string.
  rewrite !strip_without_ascii_space. f_equal.
  assert (single : forall t, flat_map text [t] = text t)
    by (intros t; simpl; apply app_nil_r).
  rewrite !single. apply text_cleaned.
Qed.

(** Two words with an empty anchor between them: the two spaces around
    the anchor are one space in the result. *)
Lemma X18_clean_html_keeps_the_text_witness :
  without_ascii_space (text_from_html_string Sample.spaced_words_cleaned)
  = without_ascii_space (text_from_html_string Sample.spaced_words)
  /\ text_from_html_string Sample.spaced_words_cleaned = u "x y"
  /\ text_from_html_string Sample.spaced_words = u "x  y".
Proof.
  split; [|split; reflexivity].
  apply (X18_clean_html_keeps_the_text
           (Tag (u "p") []
              [Tag (u "i") [] [NavigableString (u "x")];
               NavigableString (u " ");
               Tag (u "a") [] [];
               NavigableString (u " ");
               Tag (u "i") [] [NavigableString (u "y")]]) []).
  reflexivity.
Defined.

(** ** Table titles *)

Lemma starts_with_inv (p s : str) : starts_with p s = true -> exists c, s = p ++ c.
Proof.
  revert s; induction p as [|x p IH]; intros s; simpl; [eauto|].
  destruct s as [|y s]; [discriminate|].
  intros H. apply andb_true_iff in H as [H1 H2]. apply N.eqb_eq in H1. subst y.
  destruct (IH s H2) as [c ->]. eauto.
Qed.

Lemma contains_inv (p s : str) : contains p s = true -> exists a c, s = a ++ p ++ c.
Proof.
  induction s as [|x s IH]; simpl.
  - rewrite orb_false_r. intros H. apply starts_with_inv in H as [c ->]. now exists [], c.
  - intros H. apply orb_true_iff in H as [H|H].
    + apply starts_with_inv in H as [c ->]. now exists [], c.
    + destruct (IH H) as (a & c & ->). now exists (x :: a), c.
Qed.

Lemma first_alt_starts (alts : list str) (alt s : str) :
  In alt alts -> starts_with alt s = true -> first_alt alts s <> None.
Proof.
  induction alts as [|a alts IH]; simpl; [tauto|].
  intros [->|H] Hs.
  - now rewrite Hs.
  - destruct (starts_with a s); [discriminate|].
    specialize (IH H Hs). destruct (first_alt alts s); [discriminate | congruence].
Qed.

(** The first piece of [re_split] holds none of the alternatives. *)
Lemma re_split_go_head_free (alts : list str) (s : str) :
  forall cur,
    (forall a b, rev cur = a ++ b -> b <> [] -> first_alt alts (b ++ s) = None) ->
    forall piece rest,
      re_split_go alts 0 cur s = Some piece :: rest ->
      forall alt a c, In alt alts -> alt <> [] -> piece <> a ++ alt ++ c.
Proof.
  assert (stop : forall cur s',
             (forall a b, rev cur = a ++ b -> b <> [] -> first_alt alts (b ++ s') = None) ->
             forall alt a c, In alt alts -> alt <> [] -> rev cur <> a ++ alt ++ c).
  { intros cur s' Inv alt a c Hin Hne E.
    assert (Hb : alt ++ c <> []) by (destruct alt; [congruence | discriminate]).
    pose proof (Inv a (alt ++ c) E Hb) as Hnone.
    apply (first_alt_starts alts alt ((alt ++ c) ++ s') Hin); [|assumption].
    rewrite <- app_assoc. apply starts_with_self_app. }
  induction s as [|x s IH]; intros cur Inv piece rest; simpl.
  - intros E; inversion E; subst. now apply (stop cur []).
  - destruct (first_alt alts (x :: s)) as [[i m]|] eqn:Ef.
    + intros E; inversion E; subst. now apply (stop cur (x :: s)).
    + intros E0. refine (IH (x :: cur) _ piece rest E0). clear E0.
      intros a b E Hb. simpl in E.
      destruct (exists_last Hb) as (b' & y & ->).
      rewrite app_assoc in E. apply app_inj_tail in E as [E ->].
      rewrite <- app_assoc. simpl.
      destruct b' as [|z b']; [exact Ef|].
      apply (Inv a (z :: b')); [exact E | discriminate].
Qed.

Lemma clean_table_name_inv (name title : str) :
  clean_table_name name = Ok title ->
  exists a b t piece rest,
    split [nbsp] name = [a; b; t]
    /\ re_split possible_table_suffixes t = Some piece :: rest
    /\ title = strip piece.
Proof.
  unfold clean_table_name.
  destruct (split [nbsp] name) as [|a [|b [|t [|x l]]]]; simpl; try discriminate.
  destruct (re_split possible_table_suffixes t) as [|[piece|] rest] eqn:E; try discriminate.
  intros H; inversion H; subst. exists a, b, t, piece, rest. auto.
Qed.

(** X19: a title that [clean_table_name] returns neither starts nor ends
    with whitespace and holds none of the four suffixes. *)
Theorem X19_clean_table_name_title (name title : str) :
  clean_table_name name = Ok title ->
  (forall c rest, title = c :: rest -> is_space c = false)
  /\ (forall init c, title = init ++ [c] -> is_space c = false)
  /\ Forall (fun suffix => contains suffix title = false) possible_table_suffixes.
Proof.
  intros H.
  apply clean_table_name_inv in H as (a & b & t & piece & rest & _ & Hp & ->).
  destruct (strip_ends piece) as ((before & after & Hpart) & Hl & Hr).
  split; [exact Hl|]. split; [exact Hr|].
  apply Forall_forall. intros suffix Hin.
  destruct (contains suffix (strip piece)) eqn:Ec; [|reflexivity].
  apply contains_inv in Ec as (x & y & Ec). exfalso.
  apply (re_split_go_head_free possible_table_suffixes t []) with
    (piece := piece) (rest := rest) (alt := suffix) (a := before ++ x) (c := y ++ after).
  - intros a0 b0 E Hb. destruct a0; destruct b0; simpl in E; congruence.
  - exact Hp.
  - exact Hin.
  - simpl in Hin. intros ->. repeat (destruct Hin as [Hin|Hin]; [discriminate|]). exact Hin.
  - rewrite Hpart at 1. rewrite Ec. now rewrite <- !app_assoc.
Qed.

Lemma X19_clean_table_name_title_witness :
  (forall c rest, u "Patient" = c :: rest -> is_space c = false)
  /\ (forall init c, u "Patient" = init ++ [c] -> is_space c = false)
  /\ Forall (fun suffix => contains suffix (u "Patient") = false) possible_table_suffixes.
Proof.
  apply (X19_clean_table_name_title
           (u "Table" ++ [nbsp] ++ u "C.7-1." ++ [nbsp] ++ u "Patient Module Attributes")).
  reflexivity.
Defined.

Lemma first_alt_none (alts : list str) (s : str) :
  Forall (fun alt => starts_with alt s = false) alts -> first_alt alts s = None.
Proof.
  induction 1 as [|a alts Ha _ IH]; simpl; [reflexivity|].
  now rewrite Ha, IH.
Qed.

Lemma re_split_go_no_match (alts : list str) (s : str) :
  Forall (fun alt => contains alt s = false) alts ->
  forall cur, re_split_go alts 0 cur s = [Some (rev cur ++ s)].
Proof.
  induction s as [|x s IH]; intros H cur; simpl; [now rewrite app_nil_r|].
  rewrite first_alt_none.
  - rewrite IH; [simpl; now rewrite <- app_assoc|].
    eapply Forall_impl; [|exact H]. intros alt Ha. simpl in Ha.
    apply orb_false_iff in Ha. tauto.
  - eapply Forall_impl; [|exact H]. intros alt Ha. simpl in Ha.
    apply orb_false_iff in Ha. tauto.
Qed.

(** X20: of a name in three parts, [clean_table_name] reads the third
    only: when that part holds none of the four suffixes, the title is
    that part without the whitespace around it, whatever the first two
    parts are. *)
Theorem X20_clean_table_name_reads_the_third_part (number label title : str) :
  ~ In nbsp number -> ~ In nbsp label -> ~ In nbsp title ->
  Forall (fun suffix => contains suffix title = false) possible_table_suffixes ->
  clean_table_name (number ++ nbsp :: label ++ nbsp :: title) = Ok (strip title).
Proof.
  intros Hn Hl Ht Hs. unfold clean_table_name.
  rewrite (split_char_app _ _ _ Hn), (split_char_app _ _ _ Hl), (split_char_none _ _ Ht).
  simpl unpack3. unfold bind, re_split.
  now rewrite (re_split_go_no_match _ Hs).
Qed.

Lemma X20_clean_table_name_reads_the_third_part_witness :
  clean_table_name (u "Table" ++ nbsp :: u "C.7-1." ++ nbsp :: u " Patient Relationship ")
  = Ok (strip (u " Patient Relationship ")).
Proof.
  apply X20_clean_table_name_reads_the_third_part;
    try (vm_compute; intros H; repeat (destruct H as [H|H]; [discriminate|]); exact H).
  repeat constructor.
Defined.

(** ** Slugs *)

Lemma sub_runs_chars (cls : char -> bool) (repl : str) (c : char) (s : str) :
  forall in_run,
    In c (sub_runs cls repl in_run s) -> (In c s /\ cls c = false) \/ In c repl.
Proof.
  induction s as [|x s IH]; intros in_run; simpl; [tauto|].
  destruct (cls x) eqn:Ex.
  - rewrite in_app_iff. intros [H|H].
    + destruct in_run; [destruct H | tauto].
    + apply IH in H. tauto.
  - simpl. intros [->|H]; [tauto|]. apply IH in H. tauto.
Qed.

Lemma sub_runs_length (cls : char -> bool) (repl : str) (s : str) :
  length repl <= 1 ->
  forall in_run, length (sub_runs cls repl in_run s) <= length s.
Proof.
  intros Hr. induction s as [|x s IH]; intros in_run; simpl; [lia|].
  destruct (cls x).
  - rewrite length_app. specialize (IH true). destruct in_run; simpl; lia.
  - simpl. specialize (IH false). lia.
Qed.

Lemma sub_runs_none (cls : char -> bool) (repl : str) (s : str) :
  Forall (fun c => cls c = false) s ->
  forall in_run, sub_runs cls repl in_run s = s.
Proof.
  induction 1 as [|x s Hx _ IH]; intros in_run; simpl; [reflexivity|].
  now rewrite Hx, IH.
Qed.

(** X21: whatever [lower] makes of the title, a slug holds no whitespace,
    no [/], no parenthesis, no comma and no apostrophe; each of its
    characters is a hyphen or a character of the lowered title; and it is
    no longer than the lowered title. *)
Theorem X21_create_slug_characters (lower : str -> str) (title : str) :
  Forall
    (fun c => is_space_or_slash c = false /\ is_slug_punctuation c = false
              /\ (c = 45%N \/ In c (lower title)))
    (create_slug lower title)
  /\ length (create_slug lower title) <= length (lower title).
Proof.
  unfold create_slug. split.
  - apply Forall_forall. intros c H.
    apply sub_runs_chars in H as [[H Hp]|[]].
    apply sub_runs_chars in H as [[H Hs]|H].
    + auto.
    + destruct H as [<-|[]]. repeat split; auto.
  - etransitivity; [apply sub_runs_length; simpl; lia|].
    apply sub_runs_length. simpl. lia.
Qed.

(** X22: a title whose lowered form holds none of the characters that
    [create_slug] replaces or removes has that form for its slug. *)
Theorem X22_create_slug_unchanged (lower : str -> str) (title : str) :
  Forall (fun c => is_space_or_slash c = false /\ is_slug_punctuation c = false)
    (lower title) ->
  create_slug lower title = lower title.
Proof.
  intros H. unfold create_slug.
  rewrite (sub_runs_none is_space_or_slash).
  - apply sub_runs_none. eapply Forall_impl; [|exact H]. now intros c [_ Hc].
  - eapply Forall_impl; [|exact H]. now intros c [Hc _].
Qed.

Lemma X22_create_slug_unchanged_witness :
  create_slug Sample2.ascii_lower (u "SOP-Common") = Sample2.ascii_lower (u "SOP-Common").
Proof.
  apply X22_create_slug_unchanged. vm_compute. repeat constructor.
Defined.

(** ** Looking a table up *)

Section FindTdivProperties.
Variable table_id : element -> result str.

Lemma find_tdiv_by_id_cons_Ok (table : element) (i id : str) (l : list element) :
  table_id table = Ok i ->
  find_tdiv_by_id table_id (table :: l) id
  = if str_eqb i id then r <- find_tdiv_by_id table_id l id ;; Ok (Some table)
    else find_tdiv_by_id table_id l id.
Proof.
  intros H. unfold find_tdiv_by_id. simpl. rewrite H. simpl.
  destruct (mapM (fun t => i0 <- table_id t ;; Ok (t, i0)) l) as [ids|e]; simpl;
    destruct (str_eqb i id); reflexivity.
Qed.

Lemma find_tdiv_by_id_cons_Raise (table : element) (e : exn) (id : str) (l : list element) :
  table_id table = Raise e -> find_tdiv_by_id table_id (table :: l) id = Raise e.
Proof. intros H. unfold find_tdiv_by_id. simpl. now rewrite H. Qed.

(** X23: when [table_id] returns on every table of the list,
    [find_tdiv_by_id] returns the first table of the list whose identifier
    is the one looked for, and [None] when no table has it. *)
Theorem X23_find_tdiv_by_id_first_match (all_tables : list element) (id : str) :
  (forall table, In table all_tables -> exists i, table_id table = Ok i) ->
  (find_tdiv_by_id table_id all_tables id = Ok None
   /\ forall table, In table all_tables -> table_id table <> Ok id)
  \/ (exists before table after,
         all_tables = before ++ table :: after
         /\ find_tdiv_by_id table_id all_tables id = Ok (Some table)
         /\ table_id table = Ok id
         /\ forall other, In other before -> table_id other <> Ok id).
Proof.
  induction all_tables as [|t l IH]; intros H.
  - left. split; [reflexivity | intros x []].
  - destruct (H t (or_introl eq_refl)) as [i Hi].
    rewrite (find_tdiv_by_id_cons_Ok id l Hi).
    assert (Hl : forall table, In table l -> exists i, table_id table = Ok i)
      by (intros x Hx; apply H; now right).
    destruct (str_eqb i id) eqn:E.
    + apply str_eqb_eq in E. subst i. right. exists [], t, l.
      repeat split; try assumption; [|intros x []].
      destruct (IH Hl) as [[-> _]|(b & x & a & _ & -> & _)]; reflexivity.
    + apply str_eqb_neq in E.
      destruct (IH Hl) as [[Hn Hall]|(b & x & a & -> & Hf & Hx & Hb)].
      * left. split; [assumption|]. intros x [<-|Hx]; [congruence | now apply Hall].
      * right. exists (t :: b), x, a. repeat split; try assumption.
        intros y [<-|Hy]; [congruence | now apply Hb].
Qed.

(** X24: [find_tdiv_by_id] computes the identifier of every table of the
    list before it picks one: it raises what [table_id] raises on a table
    of the list, also when a table before it has the identifier looked
    for. *)
Theorem X24_find_tdiv_by_id_raises (before after : list element) (table : element)
        (id : str) (e : exn) :
  (forall other, In other before -> exists i, table_id other = Ok i) ->
  table_id table = Raise e ->
  find_tdiv_by_id table_id (before ++ table :: after) id = Raise e.
Proof.
  intros Hb He. induction before as [|t l IH]; simpl.
  - now apply find_tdiv_by_id_cons_Raise.
  - destruct (Hb t (or_introl eq_refl)) as [i Hi].
    rewrite (find_tdiv_by_id_cons_Ok id _ Hi), IH by (intros x Hx; apply Hb; now right).
    now destruct (str_eqb i id).
Qed.

End FindTdivProperties.

Lemma X23_find_tdiv_by_id_first_match_witness :
  (find_tdiv_by_id Sample2.first_anchor_id [Sample2.table_A; Sample2.table_B] (u "table_B")
   = Ok None
   /\ forall table, In table [Sample2.table_A; Sample2.table_B] ->
                    Sample2.first_anchor_id table <> Ok (u "table_B"))
  \/ (exists before table after,
         [Sample2.table_A; Sample2.table_B] = before ++ table :: after
         /\ find_tdiv_by_id Sample2.first_anchor_id [Sample2.table_A; Sample2.table_B]
              (u "table_B") = Ok (Some table)
         /\ Sample2.first_anchor_id table = Ok (u "table_B")
         /\ forall other, In other before -> Sample2.first_anchor_id other <> Ok (u "table_B")).
Proof.
  apply X23_find_tdiv_by_id_first_match.
  intros table [<-|[<-|[]]]; eexists; reflexivity.
Defined.

Lemma X24_find_tdiv_by_id_raises_witness :
  find_tdiv_by_id Sample2.first_anchor_id
    ([Sample2.table_A] ++ Sample2.table_without_id :: [Sample2.table_B]) (u "table_A")
  = Raise AttributeError.
Proof.
  apply X24_find_tdiv_by_id_raises.
  - intros other [<-|[]]. eexists. reflexivity.
  - reflexivity.
Defined.

(** ** The tables of a chapter *)

Lemma find_all_by_Tag (sel : node -> bool) (n : str) (attrs : dict) (contents : list node) :
  find_all_by sel (Tag n attrs contents) = below_by sel 0 contents.
Proof.
  simpl. generalize 0. induction contents as [|c l IH]; intros i; simpl; [reflexivity|].
  now rewrite IH.
Qed.

Lemma below_by_In (sel : node -> bool) (l : list node) :
  forall i q t,
    In (q, t) (below_by sel i l) ->
    exists j c q',
      q = (i + j) :: q' /\ nth_error l j = Some c
      /\ ((q' = [] /\ t = c /\ sel c = true) \/ In (q', t) (find_all_by sel c)).
Proof.
  induction l as [|c l IH]; intros i q t; simpl; [tauto|].
  rewrite !in_app_iff. intros [H|[H|H]].
  - destruct (sel c) eqn:Es; [|destruct H]. destruct H as [H|[]]. inversion H; subst.
    exists 0, t, []. rewrite Nat.add_0_r.
    split; [reflexivity|]. split; [reflexivity|]. left. auto.
  - apply in_map_iff in H as ([q' t'] & E & Hin). inversion E; subst.
    exists 0, c, q'. rewrite Nat.add_0_r.
    split; [reflexivity|]. split; [reflexivity|]. now right.
  - apply IH in H as (j & c' & q' & -> & Hn & Hc).
    exists (S j), c', q'. rewrite Nat.add_succ_r.
    split; [reflexivity|]. split; assumption.
Qed.

(** What [find_all_by] lists is below the tag, at the path listed, and
    passes the test. *)
Lemma find_all_by_sound (sel : node -> bool) (t : node) :
  forall q x, In (q, x) (find_all_by sel t) ->
              q <> [] /\ node_at t q = Some x /\ sel x = true.
Proof.
  induction t as [n attrs contents IH|s] using node_induction; intros q x H; [|destruct H].
  rewrite find_all_by_Tag in H.
  apply below_by_In in H as (j & c & q' & -> & Hn & Hc). simpl. rewrite Hn.
  split; [discriminate|].
  destruct Hc as [(-> & -> & Hs)|Hin]; [auto|].
  rewrite Forall_forall in IH. apply (IH c (nth_error_In _ _ Hn)) in Hin. tauto.
Qed.

Lemma node_at_app (p q : list nat) :
  forall t c, node_at t p = Some c -> node_at t (p ++ q) = node_at c q.
Proof.
  induction p as [|i p IH]; intros t c; simpl.
  - intros E; now inversion E.
  - destruct t as [n attrs contents|s]; [|discriminate].
    destruct (nth_error contents i); [apply IH | discriminate].
Qed.

Lemma is_id_true (chapter_name : str) (id : option str) :
  is_id chapter_name id = true <-> id = Some chapter_name.
Proof.
  destruct id as [i|]; simpl; [|split; discriminate].
  rewrite str_eqb_eq. split; congruence.
Qed.

(** The loop returns the tables of the first chapter with the heading
    looked for, after chapters with other headings. *)
Lemma tdivs_of_first_Some (standard : node) (chapter_name : str)
      (chapter_divs : list (list nat * node)) (tables : list element) :
  tdivs_of_first standard chapter_name chapter_divs = Ok (Some tables) <->
  exists before p chapter after,
    chapter_divs = before ++ (p, chapter) :: after
    /\ Forall (fun pc => exists id, chapter_heading_id (snd pc) = Ok id
                                    /\ id <> Some chapter_name) before
    /\ chapter_heading_id chapter = Ok (Some chapter_name)
    /\ tables = map (fun qn => {| document := standard; path := p ++ fst qn |})
                  (find_all_by (is_tag_of_class (u "div") (u "table")) chapter).
Proof.
  induction chapter_divs as [|[p0 ch0] l IH]; simpl.
  - split; [discriminate|]. intros (b & p & c & a & E & _). destruct b; discriminate.
  - destruct (chapter_heading_id ch0) as [id|e] eqn:Eh; simpl.
    + destruct (is_id chapter_name id) eqn:Ei.
      * apply is_id_true in Ei. subst id. split.
        -- intros E; inversion E; subst. exists [], p0, ch0, l. auto.
        -- intros ([|[p1 c1] b] & p & c & a & E & Hb & Hc & ->).
           ++ simpl in E. inversion E; subst. reflexivity.
           ++ simpl in E. inversion E; subst. inversion Hb as [|? ? (id & Hid & Hne) _]; subst.
              simpl in Hid. congruence.
      * assert (Hne : id <> Some chapter_name).
        { intros ->. simpl in Ei. now rewrite str_eqb_refl in Ei. }
        rewrite IH. split.
        -- intros (b & p & c & a & -> & Hb & Hc & ->).
           exists ((p0, ch0) :: b), p, c, a. repeat split; auto.
           constructor; [|assumption]. exists id. auto.
        -- intros ([|[p1 c1] b] & p & c & a & E & Hb & Hc & ->).
           ++ simpl in E. inversion E; subst. congruence.
           ++ simpl in E. inversion E; subst. inversion Hb; subst.
              exists b, p, c, a. auto.
    + split; [discriminate|].
      intros ([|[p1 c1] b] & p & c & a & E & Hb & Hc & _); simpl in E; inversion E; subst.
      * congruence.
      * inversion Hb as [|? ? (id & Hid & _) _]; subst. simpl in Hid. congruence.
Qed.

(** X25: the tables [all_tdivs_in_chapter] returns are those of one
    chapter: a [div] of class [chapter] of the document whose heading
    anchor has the [id] looked for; each of them is a [div] of class
    [table] of the document, below that chapter. *)
Theorem X25_all_tdivs_in_chapter_sound (standard : node) (chapter_name : str)
        (tables : list element) :
  all_tdivs_in_chapter standard chapter_name = Ok (Some tables) ->
  exists p chapter,
    node_at standard p = Some chapter
    /\ is_tag_of_class (u "div") (u "chapter") chapter = true
    /\ chapter_heading_id chapter = Ok (Some chapter_name)
    /\ Forall
         (fun table =>
            document table = standard
            /\ exists q t,
                path table = p ++ q /\ q <> []
                /\ node_at standard (path table) = Some t
                /\ is_tag_of_class (u "div") (u "table") t = true)
         tables.
Proof.
  unfold all_tdivs_in_chapter. intros H.
  apply tdivs_of_first_Some in H as (b & p & ch & a & E & _ & Hid & ->).
  assert (Hin : In (p, ch) (find_all_by (is_tag_of_class (u "div") (u "chapter")) standard))
    by (rewrite E; apply in_or_app; right; now left).
  apply find_all_by_sound in Hin as (_ & Hp & Hc).
  exists p, ch. repeat split; try assumption.
  apply Forall_map. apply Forall_forall. intros [q t] Hq. simpl.
  apply find_all_by_sound in Hq as (Hne & Hq & Ht).
  split; [reflexivity|]. exists q, t. repeat split; try assumption.
  now rewrite (node_at_app _ _ _ Hp).
Qed.

Lemma X25_all_tdivs_in_chapter_sound_witness :
  exists p chapter,
    node_at Sample2.standard p = Some chapter
    /\ is_tag_of_class (u "div") (u "chapter") chapter = true
    /\ chapter_heading_id chapter = Ok (Some (u "chapter_B"))
    /\ Forall
         (fun table =>
            document table = Sample2.standard
            /\ exists q t,
                path table = p ++ q /\ q <> []
                /\ node_at Sample2.standard (path table) = Some t
                /\ is_tag_of_class (u "div") (u "table") t = true)
         [ {| document := Sample2.standard; path := [1; 1] |};
           {| document := Sample2.standard; path := [1; 2; 0] |} ].
Proof.
  apply (X25_all_tdivs_in_chapter_sound Sample2.standard (u "chapter_B")). reflexivity.
Defined.

(** X26: [all_tdivs_in_chapter] returns the tables of the first chapter
    of the document, in document order, whose heading anchor has the [id]
    looked for, when the heading of every chapter before it can be read and
    has another [id]; the chapters after it are not looked at. *)
Theorem X26_all_tdivs_in_chapter_first_match (standard : node) (chapter_name : str)
        (before after : list (list nat * node)) (p : list nat) (chapter : node) :
  find_all_by (is_tag_of_class (u "div") (u "chapter")) standard
  = before ++ (p, chapter) :: after ->
  Forall (fun pc => exists id, chapter_heading_id (snd pc) = Ok id
                               /\ id <> Some chapter_name) before ->
  chapter_heading_id chapter = Ok (Some chapter_name) ->
  all_tdivs_in_chapter standard chapter_name
  = Ok (Some (map (fun qn => {| document := standard; path := p ++ fst qn |})
                (find_all_by (is_tag_of_class (u "div") (u "table")) chapter))).
Proof.
  intros E Hb Hc. unfold all_tdivs_in_chapter.
  apply tdivs_of_first_Some. exists before, p, chapter, after. auto.
Qed.

Lemma X26_all_tdivs_in_chapter_first_match_witness :
  all_tdivs_in_chapter Sample2.standard (u "chapter_B")
  = Ok (Some (map (fun qn => {| document := Sample2.standard; path := [1] ++ fst qn |})
                (find_all_by (is_tag_of_class (u "div") (u "table"))
                   (Sample2.chapter (u "chapter_B")
                      [Sample2.tdiv (u "table_B.1");
                       Tag (u "div") [(u "class", u "section")]
                         [Sample2.tdiv (u "table_B.2")]])))).
Proof.
  apply X26_all_tdivs_in_chapter_first_match with
    (before := [([0], Sample2.chapter (u "chapter_A") [Sample2.tdiv (u "table_A.1")])])
    (after := []).
  - reflexivity.
  - constructor; [|constructor]. exists (Some (u "chapter_A")).
    split; [reflexivity | discriminate].
  - reflexivity.
Defined.

(** X27: [all_tdivs_in_chapter] returns [None] exactly when the heading of
    every chapter of the document can be read and none has the [id] looked
    for. *)
Theorem X27_all_tdivs_in_chapter_none (standard : node) (chapter_name : str) :
  all_tdivs_in_chapter standard chapter_name = Ok None
  <-> Forall (fun pc => exists id, chapter_heading_id (snd pc) = Ok id
                                   /\ id <> Some chapter_name)
        (find_all_by (is_tag_of_class (u "div") (u "chapter")) standard).
Proof.
  unfold all_tdivs_in_chapter.
  induction (find_all_by (is_tag_of_class (u "div") (u "chapter")) standard)
    as [|[p ch] l IH]; simpl.
  - split; [constructor | reflexivity].
  - destruct (chapter_heading_id ch) as [id|e] eqn:Eh; simpl.
    + destruct (is_id chapter_name id) eqn:Ei.
      * apply is_id_true in Ei. subst id. split; [discriminate|].
        intros H. inversion H as [|? ? (id & Hid & Hne) _]; subst. simpl in Hid. congruence.
      * rewrite IH. split.
        -- intros H. constructor; [|assumption]. exists id. split; [assumption|].
           intros ->. simpl in Ei. now rewrite str_eqb_refl in Ei.
        -- intros H. now inversion H.
    + split; [discriminate|].
      intros H. inversion H as [|? ? (id & Hid & _) _]; subst. simpl in Hid. congruence.
Qed.
